(** * The [dip::Image] class of DIPlib 3.0: state, ownership and aliasing

    A shallow embedding of the inline member functions of
    [include/diplib/image.h]: the raw/forged state tests, the mutators that
    need a raw image, [Strip], the view comparisons [SharesData],
    [IsIdenticalView], [IsOverlappingView] (single image and collections)
    and [QuickCopy].

    Conventions.
    - [dip::uint] is [N], [dip::sint] is [Z]; no arithmetic of the modelled
      functions can wrap.
    - A [void*] is the integer address it holds; [nullptr] is address 0.
    - A [std::shared_ptr<void>] is the address of the block it holds; the use
      counts of the live blocks are kept in a finite map next to the image.
    - A member function that may throw returns a [result]; a mutator is a
      computation over the [World] that hands back the world as it is when
      the function returns or throws.

    Two more parts follow the image class, each with its own conventions:
    the morphological filters of [src/morphology/filters.cpp] and the chain
    code polygon of [src/measurement/convex_hull.cpp]. *)

From Stdlib Require Import ZArith NArith QArith List String Bool Lia.
From stdpp Require Import base decidable option list gmap strings.

Local Open Scope Z_scope.

(** ** Elementary types *)

(** [dip::DataType], with the constants named in [image.h]. *)
Inductive DataType : Set :=
| DT_BIN | DT_UINT8 | DT_UINT16 | DT_UINT32
| DT_SINT8 | DT_SINT16 | DT_SINT32
| DT_SFLOAT | DT_DFLOAT | DT_SCOMPLEX | DT_DCOMPLEX.

#[global] Instance DataType_eq_dec : EqDecision DataType.
Proof. solve_decision. Defined.

(** [dip::UnsignedArray] and [dip::IntegerArray]; [==] on them is equality
    of length and of every element. *)
Definition UnsignedArray := list N.
Definition IntegerArray := list Z.

(** Addresses. *)
Definition ptr := Z.
Definition nullptr : ptr := 0.

(** The exceptions thrown by the modelled functions: the two constants of
    [dip::E] that [image.h] uses, and an exception carrying a message. *)
Inductive Error : Set :=
| IMAGE_NOT_RAW
| IMAGE_NOT_FORGED
| Message (what : string).

Inductive result (A : Type) : Type :=
| Ok (a : A)
| Throw (e : Error).
Arguments Ok {A} a.
Arguments Throw {A} e.

(** [dip_ThrowIf( test, str )] in a function that has no state to keep. *)
Definition dip_ThrowIf_then {A} (test : bool) (e : Error) (k : result A) : result A :=
  if test then Throw e else k.

(** [a && b] where evaluating either operand may throw: [b] is evaluated
    only when [a] returned [true]. *)
Definition and_then (a b : result bool) : result bool :=
  match a with
  | Ok true => b
  | Ok false => Ok false
  | Throw e => Throw e
  end.

(** [!b] where evaluating [b] may throw. *)
Definition not_r (b : result bool) : result bool :=
  match b with
  | Ok v => Ok (negb v)
  | Throw e => Throw e
  end.

(** ** The classes [image.h] includes but does not define

    [diplib/tensor.h], [diplib/physdims.h] and [diplib/datatype.h] are
    taken as an interface. A tensor setter works in place and may throw: it
    returns the tensor it leaves behind and the message it threw, if any. *)
Class Support : Type := {
  Tensor : Type;
  Tensor_default : Tensor;
  Tensor_Elements : Tensor -> N;
  Tensor_SetSizes : Tensor -> UnsignedArray -> Tensor * option string;
  Tensor_SetVector : Tensor -> N -> Tensor * option string;
  PixelSize : Type;
  PixelSize_default : PixelSize;
  SizeOf : DataType -> Z;
  (* Image::GetDataBlockSizeAndStartWithTensor, declared in image.h and
     defined elsewhere: (size, start) from sizes, strides, tensor and
     tensor stride. *)
  GetDataBlockSizeAndStartWithTensor :
    UnsignedArray -> IntegerArray -> Tensor -> Z -> N * Z
}.

(** [std::reference_wrapper<T>]. *)
Record reference_wrapper (T : Type) : Type := ref { get : T }.
Arguments ref {T} _.
Arguments get {T} _.

Section ImageClass.
Context `{Support}.

(** ** The data members of [dip::Image] *)
Record Image : Type := mkImage {
  dataType_ : DataType;
  sizes_ : UnsignedArray;
  strides_ : IntegerArray;
  tensor_ : Tensor;
  tensorStride_ : Z;
  protect_ : bool;
  colorSpace_ : string;
  pixelSize_ : PixelSize;
  dataBlock_ : ptr;
  origin_ : ptr;
  externalInterface_ : ptr
}.

(** [Image() {}] with the default member initialisers. *)
Definition Image_default : Image := {|
  dataType_ := DT_SFLOAT;
  sizes_ := [];
  strides_ := [];
  tensor_ := Tensor_default;
  tensorStride_ := 0;
  protect_ := false;
  colorSpace_ := EmptyString;
  pixelSize_ := PixelSize_default;
  dataBlock_ := nullptr;
  origin_ := nullptr;
  externalInterface_ := nullptr
|}.

(** Assignment to one data member. *)
Definition set_dataType_ (v : DataType) (i : Image) : Image :=
  mkImage v (sizes_ i) (strides_ i) (tensor_ i) (tensorStride_ i) (protect_ i)
          (colorSpace_ i) (pixelSize_ i) (dataBlock_ i) (origin_ i) (externalInterface_ i).
Definition set_sizes_ (v : UnsignedArray) (i : Image) : Image :=
  mkImage (dataType_ i) v (strides_ i) (tensor_ i) (tensorStride_ i) (protect_ i)
          (colorSpace_ i) (pixelSize_ i) (dataBlock_ i) (origin_ i) (externalInterface_ i).
Definition set_strides_ (v : IntegerArray) (i : Image) : Image :=
  mkImage (dataType_ i) (sizes_ i) v (tensor_ i) (tensorStride_ i) (protect_ i)
          (colorSpace_ i) (pixelSize_ i) (dataBlock_ i) (origin_ i) (externalInterface_ i).
Definition set_tensor_ (v : Tensor) (i : Image) : Image :=
  mkImage (dataType_ i) (sizes_ i) (strides_ i) v (tensorStride_ i) (protect_ i)
          (colorSpace_ i) (pixelSize_ i) (dataBlock_ i) (origin_ i) (externalInterface_ i).
Definition set_tensorStride_ (v : Z) (i : Image) : Image :=
  mkImage (dataType_ i) (sizes_ i) (strides_ i) (tensor_ i) v (protect_ i)
          (colorSpace_ i) (pixelSize_ i) (dataBlock_ i) (origin_ i) (externalInterface_ i).
Definition set_protect_ (v : bool) (i : Image) : Image :=
  mkImage (dataType_ i) (sizes_ i) (strides_ i) (tensor_ i) (tensorStride_ i) v
          (colorSpace_ i) (pixelSize_ i) (dataBlock_ i) (origin_ i) (externalInterface_ i).
Definition set_colorSpace_ (v : string) (i : Image) : Image :=
  mkImage (dataType_ i) (sizes_ i) (strides_ i) (tensor_ i) (tensorStride_ i) (protect_ i)
          v (pixelSize_ i) (dataBlock_ i) (origin_ i) (externalInterface_ i).
Definition set_pixelSize_ (v : PixelSize) (i : Image) : Image :=
  mkImage (dataType_ i) (sizes_ i) (strides_ i) (tensor_ i) (tensorStride_ i) (protect_ i)
          (colorSpace_ i) v (dataBlock_ i) (origin_ i) (externalInterface_ i).
Definition set_dataBlock_ (v : ptr) (i : Image) : Image :=
  mkImage (dataType_ i) (sizes_ i) (strides_ i) (tensor_ i) (tensorStride_ i) (protect_ i)
          (colorSpace_ i) (pixelSize_ i) v (origin_ i) (externalInterface_ i).
Definition set_origin_ (v : ptr) (i : Image) : Image :=
  mkImage (dataType_ i) (sizes_ i) (strides_ i) (tensor_ i) (tensorStride_ i) (protect_ i)
          (colorSpace_ i) (pixelSize_ i) (dataBlock_ i) v (externalInterface_ i).
Definition set_externalInterface_ (v : ptr) (i : Image) : Image :=
  mkImage (dataType_ i) (sizes_ i) (strides_ i) (tensor_ i) (tensorStride_ i) (protect_ i)
          (colorSpace_ i) (pixelSize_ i) (dataBlock_ i) (origin_ i) v.

(** ** Const member functions *)

(** [bool IsForged() const { return origin_ != nullptr; }] *)
Definition IsForged (this : Image) : bool :=
  negb (bool_decide (origin_ this = nullptr)).

(** [bool IsProtected() const { return protect_; }] *)
Definition IsProtected (this : Image) : bool := protect_ this.

Definition TensorElements (this : Image) : N := Tensor_Elements (tensor_ this).

(** [sizes_.product()] *)
Definition NumberOfPixels (this : Image) : N := fold_right N.mul 1%N (sizes_ this).

(** [void* Data() const] *)
Definition Data (this : Image) : result ptr :=
  dip_ThrowIf_then (negb (IsForged this)) IMAGE_NOT_FORGED
    (Ok (dataBlock_ this)).

(** [void* Origin() const] *)
Definition Origin (this : Image) : result ptr :=
  dip_ThrowIf_then (negb (IsForged this)) IMAGE_NOT_FORGED
    (Ok (origin_ this)).

(** [bool HasContiguousData() const] *)
Definition HasContiguousData (this : Image) : result bool :=
  dip_ThrowIf_then (negb (IsForged this)) IMAGE_NOT_FORGED
    (let size := (NumberOfPixels this * TensorElements this)%N in
     let '(sz, start) :=
       GetDataBlockSizeAndStartWithTensor
         (sizes_ this) (strides_ this) (tensor_ this) (tensorStride_ this) in
     Ok (bool_decide (sz = size))).

(** [bool SharesData( Image const& other ) const] *)
Definition SharesData (this other : Image) : result bool :=
  dip_ThrowIf_then (negb (IsForged this)) IMAGE_NOT_FORGED
    (dip_ThrowIf_then (negb (IsForged other)) IMAGE_NOT_FORGED
       (Ok (bool_decide (dataBlock_ this = dataBlock_ other)))).

(** [bool IsIdenticalView( Image const& other ) const] *)
Definition IsIdenticalView (this other : Image) : result bool :=
  dip_ThrowIf_then (negb (IsForged this)) IMAGE_NOT_FORGED
    (dip_ThrowIf_then (negb (IsForged other)) IMAGE_NOT_FORGED
       (Ok (bool_decide (origin_ this = origin_ other) &&
            bool_decide (dataType_ this = dataType_ other) &&
            bool_decide (strides_ this = strides_ other) &&
            bool_decide (tensorStride_ this = tensorStride_ other)))).

(** Modelled from the spec: [Image::Aliases] is declared in [image.h] and
    defined in [src/library/image_data.cpp], which is not among the sources.
    The specification says: true iff any sample address is reachable from
    both views, the addresses being those implied by each view's origin,
    strides, sizes and tensor layout; [image.h] adds that both images must be
    forged and that [Aliases] checks it.

    [offsets dims] lists the offsets (in samples) reached by every coordinate
    tuple within the sizes of [dims], a list of (size, stride) pairs. *)
Fixpoint offsets (dims : list (N * Z)) : list Z :=
  match dims with
  | [] => [0]
  | (n, s) :: rest =>
      flat_map (fun c : nat => map (fun o => Z.of_nat c * s + o) (offsets rest))
               (seq 0 (N.to_nat n))
  end.

(** Modelled from the spec: the addresses of the samples of a view, the
    tensor dimension first, then the spatial dimensions. *)
Definition SampleAddresses (this : Image) : list Z :=
  map (fun o => origin_ this + o * SizeOf (dataType_ this))
      (offsets ((TensorElements this, tensorStride_ this)
                  :: zip (sizes_ this) (strides_ this))).

(** Modelled from the spec: [bool Aliases( Image const& other ) const]. *)
Definition Aliases (this other : Image) : result bool :=
  dip_ThrowIf_then (negb (IsForged this)) IMAGE_NOT_FORGED
    (dip_ThrowIf_then (negb (IsForged other)) IMAGE_NOT_FORGED
       (Ok (existsb (fun a => bool_decide (a ∈ SampleAddresses other))
                    (SampleAddresses this)))).

(** [bool IsOverlappingView( Image const& other ) const] *)
Definition IsOverlappingView (this other : Image) : result bool :=
  and_then (Aliases this other) (not_r (IsIdenticalView this other)).

(** The loop shared by the two collection overloads of [IsOverlappingView].
    [ii] is the loop counter; the function returns the counter at the point
    where the loop is left (by [return true], by an exception, or because
    [ii == other.size()]) together with the outcome. *)
Fixpoint IsOverlappingView_loop {T} (elem : T -> Image)
    (this : Image) (other : list T) (ii : nat) : nat * result bool :=
  match other with
  | [] => (ii, Ok false)
  | x :: rest =>
      let tmp := elem x in
      match and_then (Ok (IsForged tmp)) (IsOverlappingView this tmp) with
      | Ok true => (ii, Ok true)
      | Ok false => IsOverlappingView_loop elem this rest (S ii)
      | Throw e => (ii, Throw e)
      end
  end.

(** Position [k] of [other] holds the first view that overlaps [A]. *)
Definition first_overlap_at {T} (elem : T -> Image) (A : Image) (other : list T) (k : nat) : Prop :=
  (exists x, other !! k = Some x /\ IsOverlappingView A (elem x) = Ok true) /\
  (forall j y, (j < k)%nat -> other !! j = Some y ->
               IsOverlappingView A (elem y) <> Ok true).

(** [bool IsOverlappingView( ImageConstRefArray const& other ) const] *)
Definition IsOverlappingView_refs (this : Image)
    (other : list (reference_wrapper Image)) : result bool :=
  snd (IsOverlappingView_loop get this other 0%nat).

(** [bool IsOverlappingView( ImageArray const& other ) const] *)
Definition IsOverlappingView_array (this : Image) (other : list Image) : result bool :=
  snd (IsOverlappingView_loop id this other 0%nat).

(** [Image QuickCopy() const] *)
Definition QuickCopy (this : Image) : Image :=
  let out := Image_default in
  let out := set_dataType_ (dataType_ this) out in
  let out := set_sizes_ (sizes_ this) out in
  let out := set_strides_ (strides_ this) out in
  let out := set_tensor_ (tensor_ this) out in
  let out := set_tensorStride_ (tensorStride_ this) out in
  let out := set_dataBlock_ (dataBlock_ this) out in
  let out := set_origin_ (origin_ this) out in
  let out := set_externalInterface_ (externalInterface_ this) out in
  out.

(** ** Mutators

    The world of a mutator: the image it is called on and the use counts of
    the data blocks that are alive (a block is in the map from the moment a
    [shared_ptr] holds it until the last one lets go of it, when it is
    freed). *)
Record World : Type := mkWorld {
  use_count : gmap Z nat;
  self : Image
}.

(** A computation returns the world it leaves and a value or an exception. *)
Definition M (A : Type) : Type := World -> World * result A.

Definition ret {A} (a : A) : M A := fun w => (w, Ok a).

Definition bind {A B} (m : M A) (k : A -> M B) : M B :=
  fun w => match m w with
           | (w', Ok a) => k a w'
           | (w', Throw e) => (w', Throw e)
           end.

Definition throw {A} (e : Error) : M A := fun w => (w, Throw e).

(** Calling a const member function of the image. *)
Definition call {A} (f : Image -> A) : M A := fun w => (w, Ok (f (self w))).

(** Calling a const member function that may throw. *)
Definition call_r {A} (f : Image -> result A) : M A := fun w => (w, f (self w)).

(** Calling a const member function that also looks at the use counts. *)
Definition call_w {A} (f : World -> result A) : M A := fun w => (w, f w).

(** Assigning to data members of the image. *)
Definition assign (f : Image -> Image) : M unit :=
  fun w => (mkWorld (use_count w) (f (self w)), Ok tt).

(** [dip_ThrowIf( test, str )] *)
Definition dip_ThrowIf (test : bool) (e : Error) : M unit :=
  if test then throw e else ret tt.

Notation "x <- m ;; k" := (bind m (fun x => k))
  (at level 100, m at next level, right associativity, only parsing).
Notation "m ;;; k" := (bind m (fun _ => k))
  (at level 100, k at level 200, right associativity, only parsing).

(** [void SetSizes( UnsignedArray const& d )] *)
Definition SetSizes (d : UnsignedArray) : M unit :=
  forged <- call IsForged ;;
  dip_ThrowIf forged IMAGE_NOT_RAW ;;;
  assign (set_sizes_ d).

(** [void SetStrides( IntegerArray const& s )] *)
Definition SetStrides (s : IntegerArray) : M unit :=
  forged <- call IsForged ;;
  dip_ThrowIf forged IMAGE_NOT_RAW ;;;
  assign (set_strides_ s).

(** [void SetTensorStride( dip::sint ts )] *)
Definition SetTensorStride (ts : Z) : M unit :=
  forged <- call IsForged ;;
  dip_ThrowIf forged IMAGE_NOT_RAW ;;;
  assign (set_tensorStride_ ts).

(** A call to a setter of [tensor_]: the tensor is left as the setter left
    it, and what the setter threw is thrown on. *)
Definition tensor_call (f : Tensor -> Tensor * option string) : M unit :=
  t <- call tensor_ ;;
  assign (set_tensor_ (fst (f t))) ;;;
  match snd (f t) with
  | Some what => throw (Message what)
  | None => ret tt
  end.

(** [void SetTensorSizes( UnsignedArray const& tdims )] *)
Definition SetTensorSizes (tdims : UnsignedArray) : M unit :=
  forged <- call IsForged ;;
  dip_ThrowIf forged IMAGE_NOT_RAW ;;;
  tensor_call (fun t => Tensor_SetSizes t tdims).

(** [void SetTensorSizes( dip::uint nelems )] *)
Definition SetTensorSizes_nelems (nelems : N) : M unit :=
  forged <- call IsForged ;;
  dip_ThrowIf forged IMAGE_NOT_RAW ;;;
  tensor_call (fun t => Tensor_SetVector t nelems).

(** [void SetDataType( dip::DataType dt )] *)
Definition SetDataType (dt : DataType) : M unit :=
  forged <- call IsForged ;;
  dip_ThrowIf forged IMAGE_NOT_RAW ;;;
  assign (set_dataType_ dt).

(** [void CopyProperties( Image const& src )] *)
Definition CopyProperties (src : Image) : M unit :=
  forged <- call IsForged ;;
  dip_ThrowIf forged IMAGE_NOT_RAW ;;;
  assign (set_dataType_ (dataType_ src)) ;;;
  assign (set_sizes_ (sizes_ src)) ;;;
  assign (set_strides_ (strides_ src)) ;;;
  assign (set_tensor_ (tensor_ src)) ;;;
  assign (set_tensorStride_ (tensorStride_ src)) ;;;
  assign (set_colorSpace_ (colorSpace_ src)) ;;;
  assign (set_pixelSize_ (pixelSize_ src)) ;;;
  ei <- call externalInterface_ ;;
  if bool_decide (ei = nullptr)
  then assign (set_externalInterface_ (externalInterface_ src))
  else ret tt.

(** [void SetExternalInterface( ExternalInterface* ei )] *)
Definition SetExternalInterface (ei : ptr) : M unit :=
  forged <- call IsForged ;;
  dip_ThrowIf forged IMAGE_NOT_RAW ;;;
  assign (set_externalInterface_ ei).

(** [void Protect( bool set = true )] *)
Definition Protect (set : bool) : M unit := assign (set_protect_ set).

(** What [std::shared_ptr] does to the use counts when a pointer that holds
    block [p] lets go of it: nothing for the null pointer; otherwise one
    owner less, and the block is freed when that was the last one. *)
Definition release (p : ptr) (counts : gmap Z nat) : gmap Z nat :=
  if bool_decide (p = nullptr) then counts
  else match counts !! p with
       | Some (S (S n)) => <[p := S n]> counts
       | Some _ => delete p counts
       | None => counts
       end.

(** [dataBlock_ = nullptr;] *)
Definition reset_dataBlock_ : M unit :=
  fun w => (mkWorld (release (dataBlock_ (self w)) (use_count w))
                    (set_dataBlock_ nullptr (self w)), Ok tt).

(** [void Strip()] *)
Definition Strip : M unit :=
  forged <- call IsForged ;;
  if forged then
    protected <- call IsProtected ;;
    dip_ThrowIf protected (Message "Image is protected") ;;;
    reset_dataBlock_ ;;;
    assign (set_origin_ nullptr)
  else ret tt.

(** [bool IsShared() const]; [unique()] is [use_count() == 1]. *)
Definition IsShared (w : World) : result bool :=
  dip_ThrowIf_then (negb (IsForged (self w))) IMAGE_NOT_FORGED
    (Ok (negb (bool_decide (default 0%nat (use_count w !! dataBlock_ (self w)) = 1%nat)))).

(** [dip::uint ShareCount() const] *)
Definition ShareCount (w : World) : result N :=
  dip_ThrowIf_then (negb (IsForged (self w))) IMAGE_NOT_FORGED
    (Ok (N.of_nat (default 0%nat (use_count w !! dataBlock_ (self w))))).

End ImageClass.

Notation "x <- m ;; k" := (bind m (fun x => k))
  (at level 100, m at next level, right associativity, only parsing).
Notation "m ;;; k" := (bind m (fun _ => k))
  (at level 100, k at level 200, right associativity, only parsing).

Arguments Image {_}.
Arguments World {_}.
Arguments M {_} A.

(** ** Operations by name

    The mutators that ask for a raw image, as calls with their arguments. *)
Inductive RawMutator `{Support} : Type :=
| Call_SetSizes (d : UnsignedArray)
| Call_SetStrides (s : IntegerArray)
| Call_SetTensorStride (ts : Z)
| Call_SetDataType (dt : DataType)
| Call_SetTensorSizes (tdims : UnsignedArray)
| Call_SetTensorSizes_nelems (nelems : N)
| Call_CopyProperties (src : Image)
| Call_SetExternalInterface (ei : ptr).

Definition run_mutator `{Support} (c : RawMutator) : M unit :=
  match c with
  | Call_SetSizes d => SetSizes d
  | Call_SetStrides s => SetStrides s
  | Call_SetTensorStride ts => SetTensorStride ts
  | Call_SetDataType dt => SetDataType dt
  | Call_SetTensorSizes tdims => SetTensorSizes tdims
  | Call_SetTensorSizes_nelems nelems => SetTensorSizes_nelems nelems
  | Call_CopyProperties src => CopyProperties src
  | Call_SetExternalInterface ei => SetExternalInterface ei
  end.

(** ** A concrete instance of the interface, to run the model

    A tensor is its number of elements; [SetSizes] takes up to two sizes and
    throws on more; a pixel size carries nothing; samples have the usual
    widths; the data block of a view spans its extreme samples. *)
Module Demo.

Definition SampleSize (dt : DataType) : Z :=
  match dt with
  | DT_BIN | DT_UINT8 | DT_SINT8 => 1
  | DT_UINT16 | DT_SINT16 => 2
  | DT_UINT32 | DT_SINT32 | DT_SFLOAT => 4
  | DT_DFLOAT | DT_SCOMPLEX => 8
  | DT_DCOMPLEX => 16
  end.

Definition TensorSetSizes (t : N) (sizes : UnsignedArray) : N * option string :=
  match sizes with
  | [] => (1%N, None)
  | [n] => (n, None)
  | [r; c] => ((r * c)%N, None)
  | _ => (t, Some "Tensor dimensionalities higher than 2 not supported."%string)
  end.

Definition BlockSizeAndStart (sizes : UnsignedArray) (strides : IntegerArray)
    (telems : N) (tstride : Z) : N * Z :=
  let dims := (telems, tstride) :: zip sizes strides in
  let reach := fun d : N * Z => (Z.of_N (fst d) - 1) * snd d in
  let lo := fold_right (fun d acc => Z.min 0 (reach d) + acc) 0 dims in
  let hi := fold_right (fun d acc => Z.max 0 (reach d) + acc) 0 dims in
  (Z.to_N (hi - lo + 1), lo).

Definition support : Support := {|
  Tensor := N;
  Tensor_default := 1%N;
  Tensor_Elements := fun t => t;
  Tensor_SetSizes := TensorSetSizes;
  Tensor_SetVector := fun _ n => (n, None);
  PixelSize := unit;
  PixelSize_default := tt;
  SizeOf := SampleSize;
  GetDataBlockSizeAndStartWithTensor := BlockSizeAndStart
|}.

(** A forged scalar single-float image of 3 pixels in a block at address
    1000 that it alone holds. *)
Definition line3 : @Image support :=
  @mkImage support DT_SFLOAT [3%N] [1] 1%N 1 false EmptyString tt 1000 1000 0.

(** The view of pixels 1 and 2 of [line3]. *)
Definition line3_tail : @Image support :=
  @mkImage support DT_SFLOAT [2%N] [1] 1%N 1 false EmptyString tt 1000 1004 0.

(** The view of pixel 0 of [line3]. *)
Definition line3_head : @Image support :=
  @mkImage support DT_SFLOAT [1%N] [1] 1%N 1 false EmptyString tt 1000 1000 0.

(** A forged image in a block of its own, at address 2000. *)
Definition other_block : @Image support :=
  @mkImage support DT_UINT8 [4%N] [1] 1%N 1 false EmptyString tt 2000 2000 0.

(** A raw image whose protect flag is set. *)
Definition raw_protected : @Image support :=
  @set_protect_ support true Image_default.

(** [line3] with the protect flag set, colour space and external
    interface. *)
Definition line3_protected : @Image support :=
  @mkImage support DT_SFLOAT [3%N] [1] 1%N 1 true "RGB"%string tt 1000 1000 77.

(** Worlds: a block held once, a block held by two views, no block. *)
Definition world_of (i : @Image support) (n : nat) : @World support :=
  @mkWorld support (<[dataBlock_ i := n]> ∅) i.

Definition raw_world (i : @Image support) : @World support := @mkWorld support ∅ i.

End Demo.

(** ** More of [dip::Image]: copies, tags and the use counts *)

Section ImageCopies.
Context `{Support}.

(** *** Owners counted per control block

    Two [shared_ptr]s that hold one address need not count their owners
    together: two images made around one buffer, each from a [shared_ptr] of
    its own, have a control block each. Where one image is assigned to
    another the owners are therefore counted per control block, and every
    pointer comes with the control block it belongs to. A control block is
    named by an integer; the null pointer has none, written [no_control]. *)
Definition no_control : Z := 0.

(** What [std::shared_ptr] does to the use counts when one more pointer
    comes to share control block [c]. *)
Definition acquire (c : Z) (counts : gmap Z nat) : gmap Z nat :=
  if bool_decide (c = no_control) then counts
  else <[c := S (default 0%nat (counts !! c))]> counts.

(** The image a member function is called on, the control block of its
    [dataBlock_], and the use count of every live control block. *)
Record Owners : Type := mkOwners {
  owners : gmap Z nat;
  this_control : Z;
  this_image : Image
}.

(** Assigning to data members other than [dataBlock_]. *)
Definition assign_member (f : Image -> Image) (s : Owners) : Owners :=
  mkOwners (owners s) (this_control s) (f (this_image s)).

(** [dataBlock_ = src.dataBlock_;] where the pointer of [src] holds address
    [p] under control block [c]: the new control block gains an owner before
    the old one loses one. *)
Definition assign_dataBlock_ (c : Z) (p : ptr) (s : Owners) : Owners :=
  mkOwners (release (this_control s) (acquire c (owners s))) c
           (set_dataBlock_ p (this_image s)).

(** [Image& operator=( Image const& src )], [src_control] being the control
    block of [src.dataBlock_]. *)
Definition copy_assign (src : Image) (src_control : Z) (s : Owners)
    : Owners * result unit :=
  let s := assign_member (set_dataType_ (dataType_ src)) s in
  let s := assign_member (set_sizes_ (sizes_ src)) s in
  let s := assign_member (set_strides_ (strides_ src)) s in
  let s := assign_member (set_tensor_ (tensor_ src)) s in
  let s := assign_member (set_tensorStride_ (tensorStride_ src)) s in
  let s := assign_member (set_protect_ (protect_ src)) s in
  let s := assign_member (set_colorSpace_ (colorSpace_ src)) s in
  let s := assign_member (set_pixelSize_ (pixelSize_ src)) s in
  let s := assign_dataBlock_ src_control (dataBlock_ src) s in
  let s := assign_member (set_origin_ (origin_ src)) s in
  let s := assign_member (set_externalInterface_ (externalInterface_ src)) s in
  (s, Ok tt).

(** [void Strip()], the owners counted per control block. *)
Definition Strip_owned (s : Owners) : Owners * result unit :=
  if IsForged (this_image s) then
    if IsProtected (this_image s) then (s, Throw (Message "Image is protected"))
    else
      let s := mkOwners (release (this_control s) (owners s)) no_control
                        (set_dataBlock_ nullptr (this_image s)) in
      let s := assign_member (set_origin_ nullptr) s in
      (s, Ok tt)
  else (s, Ok tt).

(** [bool IsShared() const], the owners counted per control block. *)
Definition IsShared_owned (s : Owners) : result bool :=
  dip_ThrowIf_then (negb (IsForged (this_image s))) IMAGE_NOT_FORGED
    (Ok (negb (bool_decide (default 0%nat (owners s !! this_control s) = 1%nat)))).

(** [dip::uint ShareCount() const], the owners counted per control block. *)
Definition ShareCount_owned (s : Owners) : result N :=
  dip_ThrowIf_then (negb (IsForged (this_image s))) IMAGE_NOT_FORGED
    (Ok (N.of_nat (default 0%nat (owners s !! this_control s)))).

(** The world of the functions that concern one image alone: there the
    control block of the image goes by the address it holds. *)
Definition World_of_Owners (s : Owners) : World :=
  mkWorld (owners s) (this_image s).

(** [bool IsColor() const { return !colorSpace_.empty(); }] *)
Definition IsColor (this : Image) : bool :=
  negb (bool_decide (colorSpace_ this = EmptyString)).

(** [void SetColorSpace( String const& cs ) { colorSpace_ = cs; }] *)
Definition SetColorSpace (cs : string) : M unit := assign (set_colorSpace_ cs).

(** [void ResetColorSpace() { colorSpace_.clear(); }] *)
Definition ResetColorSpace : M unit := assign (set_colorSpace_ EmptyString).

(** [void SetPixelSize( dip::PixelSize const& ps )] *)
Definition SetPixelSize (ps : PixelSize) : M unit := assign (set_pixelSize_ ps).

(** The member functions that may be called in any state. *)
Inductive TagMutator : Type :=
| Call_Protect (set : bool)
| Call_SetColorSpace (cs : string)
| Call_ResetColorSpace
| Call_SetPixelSize (ps : PixelSize).

Definition run_tag (c : TagMutator) : M unit :=
  match c with
  | Call_Protect set => Protect set
  | Call_SetColorSpace cs => SetColorSpace cs
  | Call_ResetColorSpace => ResetColorSpace
  | Call_SetPixelSize ps => SetPixelSize ps
  end.

End ImageCopies.

Arguments Owners {_}.

(** * The morphological filters of [src/morphology/filters.cpp]

    Each function of the file decodes its flags and then calls, in a fixed
    order, filters and arithmetic functions that are defined elsewhere
    ([Erosion], [Dilation], [Opening], [Closing], [Add], [Subtract],
    [Divide]). A run of a function is modelled as the sequence of the calls
    it makes, each call taken to return, followed by the way the function
    itself ends. The stack-trace macros only annotate an exception on its
    way out and are left out. [dip::uint] is taken to be 64 bits wide. *)

Module Morphology.


(** The exceptions of the file: [E::INVALID_FLAG] and those with a text. *)
Inductive Exception : Set :=
| INVALID_FLAG
| What (what : string).

Inductive outcome (A : Type) : Type :=
| Returned (a : A)
| Thrown (e : Exception).
Arguments Returned {A} a.
Arguments Thrown {A} e.

(** The images a function names: its parameters [in] and [out] and its
    local variables. *)
Inductive Img : Set := v_in | v_out | v_c_in | v_tmp | v_out2 | v_dila | v_eros.

#[global] Instance Img_eq_dec : EqDecision Img.
Proof. solve_decision. Defined.

(** A structuring element is the parameter [se], or is built in place as
    [StructuringElement( { 2.0 * k + 1.0 }, shape )] from an unsigned [k]. *)
Inductive StructuringElement : Set :=
| se
| SE_of_size (k : N).

(** The calls, with the images passed; the boundary condition is passed on
    unchanged in every call that takes one. [dt] is the image whose
    [DataType()] is passed. *)
Inductive Call : Set :=
| Call_QuickCopy (src dst : Img)             (* Image dst = src.QuickCopy(); *)
| Call_copy (src dst : Img)                  (* Image dst = src; *)
| Call_Erosion (in_ out_ : Img) (s : StructuringElement)
| Call_Dilation (in_ out_ : Img) (s : StructuringElement)
| Call_Opening (in_ out_ : Img) (s : StructuringElement)
| Call_Closing (in_ out_ : Img) (s : StructuringElement)
| Call_Add (lhs rhs out_ dt : Img)
| Call_Subtract (lhs rhs out_ dt : Img)
| Call_Divide (lhs : Img) (rhs : Z) (out_ dt : Img)
| Call_Divide3 (lhs : Img) (rhs : Z) (dt : Img).  (* Divide( lhs, rhs, dt.DataType() ) *)

(** A run: the calls made, then how the function ended. *)
Definition T (A : Type) : Type := list Call * outcome A.

Definition calls {A} (r : T A) : list Call := fst r.
Definition ending {A} (r : T A) : outcome A := snd r.

Definition retT {A} (a : A) : T A := ([], Returned a).
Definition throwT {A} (e : Exception) : T A := ([], Thrown e).
Definition call (c : Call) : T unit := ([c], Returned tt).

Definition bindT {A B} (m : T A) (k : A -> T B) : T B :=
  match m with
  | (cs, Returned a) => let '(cs', r) := k a in (cs ++ cs', r)
  | (cs, Thrown e) => (cs, Thrown e)
  end.

Declare Scope run_scope.
Delimit Scope run_scope with run.
Bind Scope run_scope with T.
Notation "x <- m ;; k" := (bindT m (fun x => k))
  (at level 100, m at next level, right associativity, only parsing) : run_scope.
Notation "m ;;; k" := (bindT m (fun _ => k))
  (at level 100, k at level 200, right associativity, only parsing) : run_scope.
Local Open Scope run_scope.

Inductive EdgeType : Set := TEXTURE | OBJECT | BOTH.

(** [EdgeType GetEdgeType( String const& edgeType )] *)
Definition GetEdgeType (edgeType : string) : T EdgeType :=
  if String.eqb edgeType "texture" then retT TEXTURE
  else if String.eqb edgeType "object" then retT OBJECT
  else if String.eqb edgeType "both" || String.eqb edgeType "dynamic" then retT BOTH
  else throwT INVALID_FLAG.

(** [void Tophat( in, out, se, edgeType, polarity, boundaryCondition )] *)
Definition Tophat (edgeType polarity : string) : T unit :=
  white <- (if String.eqb polarity "black" then retT false
            else if negb (String.eqb polarity "white") then throwT INVALID_FLAG
            else retT true) ;;
  decodedEdgeType <- GetEdgeType edgeType ;;
  match decodedEdgeType with
  | BOTH =>
      if white : bool then
        call (Call_QuickCopy v_in v_c_in) ;;;
        call (Call_Erosion v_c_in v_out se) ;;;
        call (Call_Subtract v_c_in v_out v_out v_out)
      else
        call (Call_QuickCopy v_in v_c_in) ;;;
        call (Call_Dilation v_c_in v_out se) ;;;
        call (Call_Subtract v_out v_c_in v_out v_out)
  | TEXTURE =>
      if white then
        call (Call_QuickCopy v_in v_c_in) ;;;
        call (Call_Opening v_c_in v_out se) ;;;
        call (Call_Subtract v_c_in v_out v_out v_out)
      else
        call (Call_QuickCopy v_in v_c_in) ;;;
        call (Call_Closing v_c_in v_out se) ;;;
        call (Call_Subtract v_out v_c_in v_out v_out)
  | OBJECT =>
      if white then
        call (Call_Erosion v_in v_tmp se) ;;;
        call (Call_Dilation v_tmp v_out se) ;;;
        call (Call_Subtract v_out v_tmp v_out v_out)
      else
        call (Call_Dilation v_in v_tmp se) ;;;
        call (Call_Erosion v_tmp v_out se) ;;;
        call (Call_Subtract v_tmp v_out v_out v_out)
  end.

(** [void MorphologicalThreshold( in, out, se, edgeType, boundaryCondition )] *)
Definition MorphologicalThreshold (edgeType : string) : T unit :=
  decodedEdgeType <- GetEdgeType edgeType ;;
  match decodedEdgeType with
  | BOTH =>
      call (Call_Dilation v_in v_tmp se) ;;;
      call (Call_Erosion v_in v_out se) ;;;
      call (Call_Add v_out v_tmp v_out v_out) ;;;
      call (Call_Divide v_out 2 v_out v_out)
  | TEXTURE =>
      call (Call_Closing v_in v_tmp se) ;;;
      call (Call_Opening v_in v_out se) ;;;
      call (Call_Add v_out v_tmp v_out v_out) ;;;
      call (Call_Divide v_out 2 v_out v_out)
  | OBJECT =>
      call (Call_QuickCopy v_in v_c_in) ;;;
      call (Call_Dilation v_c_in v_tmp se) ;;;
      call (Call_Erosion v_tmp v_out se) ;;;
      call (Call_Subtract v_tmp v_out v_out v_out) ;;;
      call (Call_Erosion v_c_in v_tmp se) ;;;
      call (Call_Add v_out v_tmp v_out v_out) ;;;
      call (Call_Dilation v_tmp v_tmp se) ;;;
      call (Call_Subtract v_out v_tmp v_out v_out) ;;;
      call (Call_Divide v_out 2 v_out v_out) ;;;
      call (Call_Add v_c_in v_out v_out v_out)
  end.

(** [void MorphologicalGist( in, out, se, edgeType, boundaryCondition )] *)
Definition MorphologicalGist (edgeType : string) : T unit :=
  decodedEdgeType <- GetEdgeType edgeType ;;
  call (Call_QuickCopy v_in v_c_in) ;;;
  match decodedEdgeType with
  | BOTH =>
      call (Call_Dilation v_c_in v_tmp se) ;;;
      call (Call_Erosion v_c_in v_out se) ;;;
      call (Call_Add v_tmp v_out v_out v_out) ;;;
      call (Call_Divide v_out 2 v_out v_out) ;;;
      call (Call_Subtract v_c_in v_out v_out v_out)
  | TEXTURE =>
      call (Call_Closing v_c_in v_tmp se) ;;;
      call (Call_Opening v_c_in v_out se) ;;;
      call (Call_Add v_tmp v_out v_out v_out) ;;;
      call (Call_Divide v_out 2 v_out v_out) ;;;
      call (Call_Subtract v_c_in v_out v_out v_out)
  | OBJECT =>
      call (Call_Dilation v_c_in v_tmp se) ;;;
      call (Call_Erosion v_tmp v_out se) ;;;
      call (Call_Subtract v_out v_tmp v_out v_out) ;;;
      call (Call_Erosion v_c_in v_tmp se) ;;;
      call (Call_Subtract v_out v_tmp v_out v_out) ;;;
      call (Call_Dilation v_tmp v_tmp se) ;;;
      call (Call_Add v_out v_tmp v_out v_out) ;;;
      call (Call_Divide v_out 2 v_out v_out)
  end.

(** [void MorphologicalRange( in, out, se, edgeType, boundaryCondition )] *)
Definition MorphologicalRange (edgeType : string) : T unit :=
  decodedEdgeType <- GetEdgeType edgeType ;;
  match decodedEdgeType with
  | BOTH =>
      call (Call_Dilation v_in v_tmp se) ;;;
      call (Call_Erosion v_in v_out se) ;;;
      call (Call_Subtract v_tmp v_out v_out v_out)
  | TEXTURE =>
      call (Call_Closing v_in v_tmp se) ;;;
      call (Call_Opening v_in v_out se) ;;;
      call (Call_Subtract v_tmp v_out v_out v_out)
  | OBJECT =>
      call (Call_QuickCopy v_in v_c_in) ;;;
      call (Call_Dilation v_c_in v_tmp se) ;;;
      call (Call_Erosion v_tmp v_out se) ;;;
      call (Call_Subtract v_tmp v_out v_out v_out) ;;;
      call (Call_Erosion v_c_in v_tmp se) ;;;
      call (Call_Subtract v_out v_tmp v_out v_out) ;;;
      call (Call_Dilation v_tmp v_tmp se) ;;;
      call (Call_Add v_out v_tmp v_out v_out)
  end.

(** [void Lee( in, out, se, edgeType, sign, boundaryCondition )]; the two
    accepted signs select code that is commented out in the source. *)
Definition Lee (edgeType sign : string) : T unit :=
  (decodedEdgeType <- GetEdgeType edgeType ;;
   call (Call_QuickCopy v_in v_c_in) ;;;
   match decodedEdgeType with
   | BOTH =>
       call (Call_Dilation v_c_in v_out se) ;;;
       call (Call_Subtract v_out v_c_in v_out v_out) ;;;
       call (Call_Erosion v_c_in v_out2 se) ;;;
       call (Call_Subtract v_c_in v_out2 v_out2 v_out2)
   | TEXTURE =>
       call (Call_Closing v_c_in v_out se) ;;;
       call (Call_Subtract v_out v_c_in v_out v_out) ;;;
       call (Call_Opening v_c_in v_out2 se) ;;;
       call (Call_Subtract v_c_in v_out2 v_out2 v_out2)
   | OBJECT =>
       call (Call_Dilation v_c_in v_tmp se) ;;;
       call (Call_Erosion v_tmp v_out se) ;;;
       call (Call_Subtract v_tmp v_out v_out v_out) ;;;
       call (Call_Erosion v_c_in v_tmp se) ;;;
       call (Call_Dilation v_tmp v_out2 se) ;;;
       call (Call_Subtract v_out2 v_tmp v_out2 v_out2)
   end) ;;;
  if String.eqb sign "unsigned" then retT tt
  else if String.eqb sign "signed" then retT tt
  else throwT INVALID_FLAG.

(** [void MorphologicalSmoothing( in, out, se, mode, boundaryCondition )] *)
Definition MorphologicalSmoothing (mode : string) : T unit :=
  if String.eqb mode "open-close" then
    call (Call_Opening v_in v_out se) ;;;
    call (Call_Closing v_out v_out se)
  else if String.eqb mode "close-open" then
    call (Call_Closing v_in v_out se) ;;;
    call (Call_Opening v_out v_out se)
  else if String.eqb mode "average" then
    call (Call_Opening v_in v_tmp se) ;;;
    call (Call_Closing v_tmp v_tmp se) ;;;
    call (Call_Closing v_in v_out se) ;;;
    call (Call_Opening v_out v_out se) ;;;
    call (Call_Add v_tmp v_out v_out v_out) ;;;
    call (Call_Divide v_out 2 v_out v_out)
  else throwT INVALID_FLAG.

(** [void MorphologicalLaplace( in, out, se, boundaryCondition )] *)
Definition MorphologicalLaplace : T unit :=
  call (Call_copy v_in v_c_in) ;;;
  call (Call_Dilation v_c_in v_tmp se) ;;;
  call (Call_Erosion v_c_in v_out se) ;;;
  call (Call_Add v_tmp v_out v_out v_out) ;;;
  call (Call_Divide v_out 2 v_out v_out) ;;;
  call (Call_Subtract v_out v_c_in v_out v_out).

(** Arithmetic of [dip::uint] and the cast to [uint32]. *)
Definition uint_wrap (z : Z) : N := Z.to_N (z mod 2 ^ 64).
Definition uint32_cast (n : N) : Z := Z.of_N n mod 2 ^ 32.

(** One turn of the loop of [MultiScaleMorphologicalGradient]. *)
Definition MultiScale_turn (ii : N) (first : bool) : T unit :=
  let se1 := SE_of_size ii in
  let se2 := SE_of_size (uint_wrap (Z.of_N ii - 1)) in
  call (Call_Dilation v_in v_dila se1) ;;;
  call (Call_Erosion v_in v_eros se1) ;;;
  call (Call_Subtract v_dila v_eros v_eros v_dila) ;;;
  if first then
    call (Call_Erosion v_eros v_out se2)
  else
    call (Call_Erosion v_eros v_eros se2) ;;;
    call (Call_Add v_eros v_out v_out v_out).

(** [for( dip::uint ii = lowerSize; ii <= upperSize; ++ii )], with [first]
    as the loop finds it; [None] when the loop is still running after
    [fuel] turns. *)
Fixpoint MultiScale_loop (fuel : nat) (upperSize ii : N) (first : bool)
    : option (list Call) :=
  if (ii <=? upperSize)%N then
    match fuel with
    | O => None
    | S fuel' =>
        match MultiScale_loop fuel' upperSize (uint_wrap (Z.of_N ii + 1)) false with
        | Some rest => Some (calls (MultiScale_turn ii first) ++ rest)
        | None => None
        end
    end
  else Some [].

(** [void MultiScaleMorphologicalGradient( in, out, upperSize, lowerSize,
    shape, boundaryCondition )]. An unsigned size converted to a floating
    point number is not below [0.0]. *)
Definition MultiScaleMorphologicalGradient (fuel : nat) (upperSize lowerSize : N)
    : option (T unit) :=
  if (Z.of_N lowerSize <? 0)%Z then Some (throwT (What "lowerSize out-of-range"))
  else if (Z.of_N upperSize <? 0)%Z then Some (throwT (What "upperSize out-of-range"))
  else if (upperSize <? lowerSize)%N then Some (throwT (What "lowerSize > upperSize"))
  else
    match MultiScale_loop fuel upperSize lowerSize true with
    | None => None
    | Some cs =>
        Some (cs ++ [Call_Divide3 v_out
                       (uint32_cast (uint_wrap (Z.of_N upperSize - Z.of_N lowerSize + 1)))
                       v_out],
              Returned tt)
    end.

(** The images a call is given to read and the image it is given to write
    its result to. *)
Definition reads (c : Call) : list Img :=
  match c with
  | Call_QuickCopy src _ | Call_copy src _ => [src]
  | Call_Erosion i _ _ | Call_Dilation i _ _
  | Call_Opening i _ _ | Call_Closing i _ _ => [i]
  | Call_Add l r _ d | Call_Subtract l r _ d => [l; r; d]
  | Call_Divide l _ _ d | Call_Divide3 l _ d => [l; d]
  end.

Definition writes (c : Call) : list Img :=
  match c with
  | Call_QuickCopy _ dst | Call_copy _ dst => [dst]
  | Call_Erosion _ o _ | Call_Dilation _ o _
  | Call_Opening _ o _ | Call_Closing _ o _ => [o]
  | Call_Add _ _ o _ | Call_Subtract _ _ o _ => [o]
  | Call_Divide _ _ o _ => [o]
  | Call_Divide3 _ _ _ => []
  end.

(** Some call reads [in] after an earlier call was given [out] to write. *)
Definition reads_in_after_out (cs : list Call) : Prop :=
  exists pre c post,
    cs = pre ++ c :: post /\
    (exists c', c' ∈ pre /\ v_out ∈ writes c') /\
    v_in ∈ reads c.

(** The same, computed along the run; [written] tells whether [out] has
    been written so far. *)
Fixpoint reads_in_after_out_b (written : bool) (cs : list Call) : bool :=
  match cs with
  | [] => false
  | c :: rest =>
      (written && bool_decide (v_in ∈ reads c))
      || reads_in_after_out_b (written || bool_decide (v_out ∈ writes c)) rest
  end.

(** The flags a caller may pass. *)
Definition valid_edgeType (edgeType : string) : Prop :=
  edgeType = "texture"%string \/ edgeType = "object"%string \/
  edgeType = "both"%string \/ edgeType = "dynamic"%string.

Definition valid_polarity (polarity : string) : Prop :=
  polarity = "black"%string \/ polarity = "white"%string.

Definition valid_sign (sign : string) : Prop :=
  sign = "unsigned"%string \/ sign = "signed"%string.

Definition valid_mode (mode : string) : Prop :=
  mode = "open-close"%string \/ mode = "close-open"%string \/ mode = "average"%string.

(** The calls of [count] turns of the loop of
    [MultiScaleMorphologicalGradient], from [ii] on. *)
Fixpoint MultiScale_turns (count : nat) (ii : N) (first : bool) : list Call :=
  match count with
  | O => []
  | S count' =>
      calls (MultiScale_turn ii first) ++ MultiScale_turns count' (ii + 1) false
  end.

End Morphology.

(** * From a chain code to a polygon: [src/measurement/convex_hull.cpp]

    [diplib/chain_code.h] is not among the sources. A [VertexInteger] is a
    pair of integers and a [VertexFloat] a pair of floating point numbers;
    the floating point type, its literals and the vertex additions are taken
    as an interface, so that nothing is assumed about rounding. A chain code
    holds the [int] values of its codes. *)

Module ChainCodes.

Definition VertexInteger : Type := Z * Z.

Class Floats : Type := {
  dfloat : Type;
  dfloat_of_sint : Z -> dfloat;             (* dfloat( chainCode.start.x ) *)
  lit_0_0 : dfloat;                         (* 0.0 *)
  lit_0_5 : dfloat;                         (* 0.5 *)
  lit_minus_0_5 : dfloat;                   (* -0.5 *)
  vertex_add : dfloat * dfloat -> dfloat * dfloat -> dfloat * dfloat;  (* pts[ k ] + pos *)
  vertex_add_int : dfloat * dfloat -> VertexInteger -> dfloat * dfloat (* pos += dir[ n ] *)
}.

Record ChainCode : Type := mkChainCode {
  start : VertexInteger;
  codes : list Z;
  is8connected : bool
}.

(** [static inline void DecrementMod4( int& k )] *)
Definition DecrementMod4 (k : Z) : Z := if k =? 0 then 3 else k - 1.

(** The table [dir], as far as it is filled in; [None] elsewhere. *)
Definition dir (is8connected : bool) (n : Z) : option VertexInteger :=
  if is8connected then
    match n with
    | 0 => Some (1, 0)
    | 1 => Some (1, -1)
    | 2 => Some (0, -1)
    | 3 => Some (-1, -1)
    | 4 => Some (-1, 0)
    | 5 => Some (-1, 1)
    | 6 => Some (0, 1)
    | 7 => Some (1, 1)
    | _ => None
    end
  else
    match n with
    | 0 => Some (1, 0)
    | 1 => Some (0, -1)
    | 2 => Some (-1, 0)
    | 3 => Some (0, 1)
    | _ => None
    end.

Section Polygon.
Context `{Floats}.

Definition VertexFloat : Type := dfloat * dfloat.
Definition Polygon : Type := list VertexFloat.

(** The table [pts], as far as it is filled in; [None] elsewhere. *)
Definition pts (k : Z) : option VertexFloat :=
  match k with
  | 0 => Some (lit_0_0, lit_minus_0_5)
  | 1 => Some (lit_minus_0_5, lit_0_0)
  | 2 => Some (lit_0_0, lit_0_5)
  | 3 => Some (lit_0_5, lit_0_0)
  | _ => None
  end.

(** [polygon.push_back( pts[ k ] + pos );] *)
Definition push_back_pts (k : Z) (pos : VertexFloat) (polygon : Polygon) : option Polygon :=
  p ← pts k; Some (polygon ++ [vertex_add p pos]).

(** The indices [k] and [l] of one turn of the loop, from the previous code
    [m] and the current code [n]; [/] on [int] truncates. *)
Definition turn_indices (is8connected : bool) (m n : Z) : Z * Z :=
  if is8connected then
    let k := Z.quot (m + 1) 2 in
    let k := if k =? 4 then 0 else k in
    let l := Z.quot n 2 - k in
    let l := if l <? 0 then l + 4 else l in
    (k, l)
  else (m, n).

(** The body of [for( auto const& code : chainCode.codes )]: the polygon and
    the position it leaves; [None] when it reads a table outside the part
    that is filled in. *)
Definition turn (is8connected : bool) (m n : Z) (pos : VertexFloat) (polygon : Polygon)
    : option (Polygon * VertexFloat) :=
  let '(k, l) := turn_indices is8connected m n in
  polygon ← push_back_pts k pos polygon;
  polygon ←
    (if negb (l =? 0) then
       let k := DecrementMod4 k in
       polygon ← push_back_pts k pos polygon;
       if l <=? 2 then
         let k := DecrementMod4 k in
         polygon ← push_back_pts k pos polygon;
         if is8connected && (l =? 1) then
           let k := DecrementMod4 k in
           push_back_pts k pos polygon
         else Some polygon
       else Some polygon
     else Some polygon);
  d ← dir is8connected n;
  Some (polygon, vertex_add_int pos d).

Fixpoint turns (is8connected : bool) (cs : list Z) (m : Z)
    (pos : VertexFloat) (polygon : Polygon) : option Polygon :=
  match cs with
  | [] => Some polygon
  | n :: rest =>
      '(polygon, pos) ← turn is8connected m n pos polygon;
      turns is8connected rest n pos polygon
  end.

(** [static Polygon dip__ChainCodeToPolygon( ChainCode const& chainCode )];
    [None] stands for a run whose behaviour the source does not define. *)
Definition dip__ChainCodeToPolygon (chainCode : ChainCode) : option (result Polygon) :=
  if bool_decide (length (codes chainCode) = 1%nat) then
    Some (Throw (Message "Received a weird chain code as input (N==2)."))
  else
    let pos : VertexFloat :=
      (dfloat_of_sint (fst (start chainCode)), dfloat_of_sint (snd (start chainCode))) in
    match codes chainCode with
    | [] =>
        polygon ← push_back_pts 0 pos [];
        polygon ← push_back_pts 1 pos polygon;
        polygon ← push_back_pts 2 pos polygon;
        polygon ← push_back_pts 3 pos polygon;
        Some (Ok polygon)
    | cs =>
        polygon ← turns (is8connected chainCode) cs 0 pos [];
        Some (Ok polygon)
    end.

(** The codes a chain code of the given connectivity may hold. *)
Definition code_in_range (is8connected : bool) (n : Z) : Prop :=
  0 <= n < (if is8connected then 8 else 4).

(** The number of vertices a turn adds, from its index [l]. *)
Definition vertices_of_turn (is8connected : bool) (l : Z) : nat :=
  if l =? 0 then 1
  else if l <=? 2 then (if is8connected && (l =? 1) then 4 else 3)
  else 2.

(** The number of vertices one turn adds in the 4-connected case. *)
Definition vertices_of_code4 (n : Z) : nat :=
  match n with
  | 0 => 1
  | 3 => 2
  | _ => 3
  end.

End Polygon.

(** Vertices with exact rational coordinates, to run the model. *)
Definition exact : Floats := {|
  dfloat := Q;
  dfloat_of_sint := inject_Z;
  lit_0_0 := 0%Q;
  lit_0_5 := (1 # 2)%Q;
  lit_minus_0_5 := (- 1 # 2)%Q;
  vertex_add := fun p q => (Qred (fst p + fst q), Qred (snd p + snd q));
  vertex_add_int := fun p d =>
    (Qred (fst p + inject_Z (fst d)), Qred (snd p + inject_Z (snd d)))
|}.

End ChainCodes.

(** * Properties *)

Section ImageFacts.
Context `{Support}.
Implicit Types A B this other : Image.
Implicit Types w : World.

(** ** Raw and forged *)

Lemma IsForged_origin A : IsForged A = true <-> origin_ A <> nullptr.
Proof.
  unfold IsForged. rewrite negb_true_iff, bool_decide_eq_false. reflexivity.
Qed.

Lemma IsForged_default : IsForged Image_default = false.
Proof. reflexivity. Qed.

(** The forged test of a two-image comparison, in one step. *)
Lemma both_forged {R} A B (k : result R) :
  IsForged A = true -> IsForged B = true ->
  dip_ThrowIf_then (negb (IsForged A)) IMAGE_NOT_FORGED
    (dip_ThrowIf_then (negb (IsForged B)) IMAGE_NOT_FORGED k) = k.
Proof. intros -> ->. reflexivity. Qed.

Lemma some_raw {R} A B (k : result R) :
  IsForged A = false \/ IsForged B = false ->
  dip_ThrowIf_then (negb (IsForged A)) IMAGE_NOT_FORGED
    (dip_ThrowIf_then (negb (IsForged B)) IMAGE_NOT_FORGED k)
  = Throw IMAGE_NOT_FORGED.
Proof.
  intros [E | E]; rewrite E; simpl; [reflexivity|].
  destruct (IsForged A); reflexivity.
Qed.

(** ** Aliasing *)

Lemma shared_address_sym (l1 l2 : list Z) :
  existsb (fun a => bool_decide (a ∈ l2)) l1
  = existsb (fun a => bool_decide (a ∈ l1)) l2.
Proof.
  apply eq_true_iff_eq.
  rewrite !existsb_exists.
  split; intros (a & Hin & Hdec); apply bool_decide_eq_true in Hdec;
    exists a; (split; [apply list_elem_of_In | apply bool_decide_eq_true; apply list_elem_of_In]);
    assumption.
Qed.

Lemma Aliases_swap A B : Aliases A B = Aliases B A.
Proof.
  unfold Aliases.
  destruct (IsForged A) eqn:EA, (IsForged B) eqn:EB; simpl; try reflexivity.
  f_equal. apply shared_address_sym.
Qed.

Lemma Aliases_returns A B :
  IsForged A = true -> IsForged B = true ->
  exists b, Aliases A B = Ok b.
Proof. intros EA EB. unfold Aliases. rewrite both_forged by assumption. eauto. Qed.

Lemma Aliases_raw A B :
  IsForged A = false \/ IsForged B = false -> Aliases A B = Throw IMAGE_NOT_FORGED.
Proof. intros E. unfold Aliases. apply some_raw, E. Qed.

Lemma IsIdenticalView_returns A B :
  IsForged A = true -> IsForged B = true ->
  exists b, IsIdenticalView A B = Ok b.
Proof. intros EA EB. unfold IsIdenticalView. rewrite both_forged by assumption. eauto. Qed.

(** C8. For forged images A and B, [A.Aliases(B)] and [B.Aliases(A)] both
    return, and return the same value. *)
Theorem Aliases_symmetric A B :
  IsForged A = true -> IsForged B = true ->
  exists b, Aliases A B = Ok b /\ Aliases B A = Ok b.
Proof.
  intros EA EB.
  destruct (Aliases_returns A B EA EB) as [b Eb].
  exists b. split; [assumption|]. rewrite Aliases_swap. assumption.
Qed.

(** C3. For forged images A and B, [A.IsIdenticalView(B)] returns [true]
    exactly when origins, data types, stride arrays and tensor strides are
    all equal; when either image is raw it throws the not-forged error. *)
Theorem IsIdenticalView_spec A B :
  (IsForged A = true -> IsForged B = true ->
   exists b, IsIdenticalView A B = Ok b /\
     (b = true <->
      origin_ A = origin_ B /\ dataType_ A = dataType_ B /\
      strides_ A = strides_ B /\ tensorStride_ A = tensorStride_ B))
  /\ (IsForged A = false \/ IsForged B = false ->
      IsIdenticalView A B = Throw IMAGE_NOT_FORGED).
Proof.
  split.
  - intros EA EB. unfold IsIdenticalView. rewrite both_forged by assumption.
    eexists. split; [reflexivity|].
    rewrite !andb_true_iff, !bool_decide_eq_true. tauto.
  - intros E. unfold IsIdenticalView. apply some_raw, E.
Qed.

(** C4. [A.SharesData(B)] throws the not-forged error when A or B is raw;
    for forged images it returns [true] exactly when both hold the same data
    block, and the answer is the same for any other two forged images that
    hold those blocks, whatever their origins, strides and sizes. *)
Theorem SharesData_spec A B :
  (IsForged A = false \/ IsForged B = false ->
   SharesData A B = Throw IMAGE_NOT_FORGED)
  /\ (IsForged A = true -> IsForged B = true ->
      (exists b, SharesData A B = Ok b /\ (b = true <-> dataBlock_ A = dataBlock_ B))
      /\ forall A' B',
           IsForged A' = true -> IsForged B' = true ->
           dataBlock_ A' = dataBlock_ A -> dataBlock_ B' = dataBlock_ B ->
           SharesData A' B' = SharesData A B).
Proof.
  split.
  - intros E. unfold SharesData. apply some_raw, E.
  - intros EA EB. split.
    + unfold SharesData. rewrite both_forged by assumption.
      eexists. split; [reflexivity|]. apply bool_decide_eq_true.
    + intros A' B' EA' EB' DA DB. unfold SharesData.
      rewrite !both_forged by assumption. rewrite DA, DB. reflexivity.
Qed.

(** ** Overlapping views *)

Lemma IsOverlappingView_returns A B :
  IsForged A = true -> IsForged B = true ->
  exists b, IsOverlappingView A B = Ok b.
Proof.
  intros EA EB. unfold IsOverlappingView.
  destruct (Aliases_returns A B EA EB) as [al ->].
  destruct (IsIdenticalView_returns A B EA EB) as [iv ->].
  destruct al; simpl; eauto.
Qed.

Lemma IsOverlappingView_raw A B :
  IsForged A = false \/ IsForged B = false ->
  IsOverlappingView A B = Throw IMAGE_NOT_FORGED.
Proof.
  intros E. unfold IsOverlappingView. rewrite Aliases_raw by assumption. reflexivity.
Qed.

(** C1. For forged images A and B, [A.IsOverlappingView(B)] returns, and it
    returns [true] exactly when [A.Aliases(B)] returns [true] and
    [A.IsIdenticalView(B)] returns [false]. *)
Theorem IsOverlappingView_spec A B :
  IsForged A = true -> IsForged B = true ->
  (exists b, IsOverlappingView A B = Ok b) /\
  (IsOverlappingView A B = Ok true <->
   Aliases A B = Ok true /\ IsIdenticalView A B = Ok false).
Proof.
  intros EA EB. split; [apply IsOverlappingView_returns; assumption|].
  unfold IsOverlappingView.
  destruct (Aliases_returns A B EA EB) as [al ->].
  destruct (IsIdenticalView_returns A B EA EB) as [iv ->].
  destruct al, iv; simpl; split; try (intros [? ?]); intros; try discriminate; auto.
Qed.

(** ** Quick copy *)

(** C10. [A.QuickCopy()] has A's data block, origin, data type, sizes,
    strides, tensor, tensor stride and external interface; its colour space
    is empty, its pixel size is the default one and its protect flag is
    clear, whatever A's are. *)
Theorem QuickCopy_fields A :
  dataBlock_ (QuickCopy A) = dataBlock_ A /\
  origin_ (QuickCopy A) = origin_ A /\
  dataType_ (QuickCopy A) = dataType_ A /\
  sizes_ (QuickCopy A) = sizes_ A /\
  strides_ (QuickCopy A) = strides_ A /\
  tensor_ (QuickCopy A) = tensor_ A /\
  tensorStride_ (QuickCopy A) = tensorStride_ A /\
  externalInterface_ (QuickCopy A) = externalInterface_ A /\
  colorSpace_ (QuickCopy A) = EmptyString /\
  pixelSize_ (QuickCopy A) = PixelSize_default /\
  protect_ (QuickCopy A) = false.
Proof. repeat split. Qed.

(** A quick copy of a forged image is forged, shares its data and is an
    identical view of it. *)
Lemma QuickCopy_forged A :
  IsForged A = true ->
  IsForged (QuickCopy A) = true /\
  SharesData (QuickCopy A) A = Ok true /\
  IsIdenticalView (QuickCopy A) A = Ok true.
Proof.
  intros EA.
  assert (EQ : IsForged (QuickCopy A) = true) by exact EA.
  split; [exact EQ|]. split.
  - unfold SharesData. rewrite both_forged by assumption.
    f_equal. apply bool_decide_eq_true. reflexivity.
  - unfold IsIdenticalView. rewrite both_forged by assumption.
    f_equal. rewrite !andb_true_iff, !bool_decide_eq_true. repeat split.
Qed.

(** ** Collections of candidate views *)

(** What the loop does with one candidate. *)
Lemma candidate_raw A tmp :
  IsForged tmp = false ->
  and_then (Ok (IsForged tmp)) (IsOverlappingView A tmp) = Ok false.
Proof. intros ->. reflexivity. Qed.

Lemma candidate_forged A tmp :
  IsForged tmp = true ->
  and_then (Ok (IsForged tmp)) (IsOverlappingView A tmp) = IsOverlappingView A tmp.
Proof. intros ->. reflexivity. Qed.

Lemma candidate_true A tmp :
  and_then (Ok (IsForged tmp)) (IsOverlappingView A tmp) = Ok true
  <-> IsOverlappingView A tmp = Ok true.
Proof.
  destruct (IsForged tmp) eqn:E; simpl; [reflexivity|].
  rewrite IsOverlappingView_raw by auto. split; discriminate.
Qed.

Lemma candidate_returns A tmp :
  IsForged A = true ->
  exists b, and_then (Ok (IsForged tmp)) (IsOverlappingView A tmp) = Ok b.
Proof.
  intros EA. destruct (IsForged tmp) eqn:E; simpl; [|eauto].
  apply IsOverlappingView_returns; assumption.
Qed.

(** One turn of the loop. *)
Lemma loop_cons {T} (elem : T -> Image) A (x : T) (rest : list T) ii :
  IsOverlappingView_loop elem A (x :: rest) ii
  = match and_then (Ok (IsForged (elem x))) (IsOverlappingView A (elem x)) with
    | Ok true => (ii, Ok true)
    | Ok false => IsOverlappingView_loop elem A rest (S ii)
    | Throw e => (ii, Throw e)
    end.
Proof. reflexivity. Qed.

(** With a forged [A] the loop never throws: it either leaves at the first
    overlapping candidate or runs to the end without finding one. *)
Lemma loop_forged {T} (elem : T -> Image) A (other : list T) ii :
  IsForged A = true ->
  (exists k, first_overlap_at elem A other k /\
             IsOverlappingView_loop elem A other ii = ((ii + k)%nat, Ok true))
  \/ (Forall (fun y => IsOverlappingView A (elem y) <> Ok true) other /\
      IsOverlappingView_loop elem A other ii = ((ii + length other)%nat, Ok false)).
Proof.
  intros EA. revert ii. induction other as [|x rest IH]; intros ii.
  - right. split; [constructor|]. simpl. f_equal. lia.
  - rewrite loop_cons.
    destruct (candidate_returns A (elem x) EA) as [b Eb]. rewrite Eb.
    destruct b.
    + left. exists 0%nat. split.
      * split; [exists x; split; [reflexivity | apply candidate_true, Eb]|].
        intros j y Hj. lia.
      * f_equal. lia.
    + assert (Hx : IsOverlappingView A (elem x) <> Ok true).
      { intros C. apply candidate_true in C. congruence. }
      destruct (IH (S ii)) as [(k & [(y & Hy & Oy) Hfirst] & Hk) | [Hall Hk]].
      * left. exists (S k). split.
        -- split; [exists y; split; assumption|].
           intros [|j] z Hj Hz; simpl in Hz.
           ++ congruence.
           ++ apply (Hfirst j); [lia | assumption].
        -- rewrite Hk. f_equal. lia.
      * right. split; [constructor; assumption|].
        rewrite Hk. simpl. f_equal. lia.
Qed.

Lemma first_overlap_unique {T} (elem : T -> Image) A (other : list T) k k' :
  first_overlap_at elem A other k -> first_overlap_at elem A other k' -> k = k'.
Proof.
  intros [(x & Hx & Ox) Hk] [(x' & Hx' & Ox') Hk'].
  destruct (Nat.lt_trichotomy k k') as [L | [E | L]]; [|assumption|].
  - exfalso. exact (Hk' k x L Hx Ox).
  - exfalso. exact (Hk k' x' L Hx' Ox').
Qed.

(** The loop finds an overlapping candidate when there is one, and leaves at
    the first; for any way [elem] of reading a candidate out of the
    collection. *)
Lemma loop_any_overlap {T} (elem : T -> Image) A (other : list T) :
  IsForged A = true ->
  (exists b, snd (IsOverlappingView_loop elem A other 0) = Ok b /\
     (b = true <-> exists x, x ∈ other /\ IsOverlappingView A (elem x) = Ok true))
  /\ (forall k, first_overlap_at elem A other k ->
        forall more, IsOverlappingView_loop elem A (take (S k) other ++ more) 0
                     = (k, Ok true)).
Proof.
  intros EA. split.
  - destruct (loop_forged elem A other 0 EA)
      as [(k & [(x & Hx & Ox) _] & Hk) | [Hall Hk]]; rewrite Hk; simpl.
    + exists true. split; [reflexivity|]. split; [|reflexivity].
      intros _. exists x. split; [|assumption].
      apply list_elem_of_lookup. exists k. assumption.
    + exists false. split; [reflexivity|]. split; [discriminate|].
      intros (x & Hin & Ox). exfalso.
      rewrite Forall_forall in Hall. exact (Hall x Hin Ox).
  - intros k Hfirst more.
    assert (Hfirst' : first_overlap_at elem A (take (S k) other ++ more) k).
    { destruct Hfirst as [(x & Hx & Ox) Hk].
      assert (Hlen : (k < length (take (S k) other))%nat).
      { apply lookup_lt_is_Some. exists x. rewrite lookup_take_lt by lia. assumption. }
      split.
      - exists x. split; [|assumption].
        rewrite lookup_app_l by assumption. rewrite lookup_take_lt by lia. assumption.
      - intros j y Hj Hy. apply (Hk j y Hj).
        rewrite lookup_app_l in Hy by lia. rewrite lookup_take_lt in Hy by lia.
        assumption. }
    destruct (loop_forged elem A (take (S k) other ++ more) 0 EA)
      as [(k' & Hk' & Hrun) | [Hall _]].
    + rewrite Hrun. rewrite (first_overlap_unique _ _ _ _ _ Hfirst' Hk'). reflexivity.
    + exfalso. destruct Hfirst' as [(x & Hx & Ox) _].
      rewrite Forall_forall in Hall. apply (Hall x); [|assumption].
      apply list_elem_of_lookup. exists k. assumption.
Qed.

(** C5. For a forged image A, each collection overload of
    [IsOverlappingView] returns, and returns [true] exactly when some element
    of the collection overlaps A in the sense of the single-image function;
    the loop is left with its counter at the first overlapping element, so
    that whatever follows that element in the collection is not looked at. *)
Theorem IsOverlappingView_collection_spec A :
  IsForged A = true ->
  (forall other : list Image,
     (exists b, IsOverlappingView_array A other = Ok b /\
        (b = true <-> exists x, x ∈ other /\ IsOverlappingView A x = Ok true))
     /\ (forall k, first_overlap_at id A other k ->
           forall more, IsOverlappingView_loop id A (take (S k) other ++ more) 0
                        = (k, Ok true)))
  /\
  (forall other : list (reference_wrapper Image),
     (exists b, IsOverlappingView_refs A other = Ok b /\
        (b = true <-> exists r, r ∈ other /\ IsOverlappingView A (get r) = Ok true))
     /\ (forall k, first_overlap_at get A other k ->
           forall more, IsOverlappingView_loop get A (take (S k) other ++ more) 0
                        = (k, Ok true))).
Proof.
  intros EA. split; intros other.
  - exact (loop_any_overlap id A other EA).
  - exact (loop_any_overlap get A other EA).
Qed.

(** Raw candidates are passed over, whatever [A] is. *)
Lemma loop_skips_raw {T} (elem : T -> Image) A (other : list T) ii jj :
  snd (IsOverlappingView_loop elem A other ii)
  = snd (IsOverlappingView_loop elem A
           (List.filter (fun x => IsForged (elem x)) other) jj).
Proof.
  revert ii jj.
  induction other as [|x rest IH]; intros ii jj; [reflexivity|].
  rewrite loop_cons. cbn [List.filter].
  destruct (IsForged (elem x)) eqn:E.
  - rewrite loop_cons, E.
    destruct (and_then _ _) as [[|]|e]; [reflexivity | apply IH | reflexivity].
  - apply IH.
Qed.

Lemma loop_all_raw {T} (elem : T -> Image) A (other : list T) ii :
  Forall (fun x => IsForged (elem x) = false) other ->
  snd (IsOverlappingView_loop elem A other ii) = Ok false.
Proof.
  intros Hraw. revert ii.
  induction Hraw as [|x rest Hx Hrest IH]; intros ii; [reflexivity|].
  rewrite loop_cons, candidate_raw by assumption. apply IH.
Qed.

Lemma loop_throws {T} (elem : T -> Image) A (other : list T) ii e :
  snd (IsOverlappingView_loop elem A other ii) = Throw e ->
  e = IMAGE_NOT_FORGED /\ IsForged A = false /\
  exists x, x ∈ other /\ IsForged (elem x) = true.
Proof.
  destruct (IsForged A) eqn:EA.
  - intros Hthrow. exfalso.
    destruct (loop_forged elem A other ii EA) as [(k & _ & Hk) | [_ Hk]];
      rewrite Hk in Hthrow; discriminate.
  - revert ii.
    induction other as [|x rest IH]; intros ii; [discriminate|].
    rewrite loop_cons.
    destruct (IsForged (elem x)) eqn:E; cbn [and_then].
    + rewrite IsOverlappingView_raw by auto. intros [= <-].
      repeat split. exists x. split; [left | assumption].
    + intros Hthrow. destruct (IH _ Hthrow) as (-> & _ & y & Hy & Fy).
      repeat split. exists y. split; [right; assumption | assumption].
Qed.

(** C9. Whatever image A is, each collection overload of
    [IsOverlappingView] gives the outcome it gives on the collection with the
    raw elements left out; it returns [false] on a collection without forged
    elements (the empty one included); and when it throws, the error is the
    not-forged error of a raw A that met a forged element. *)
Theorem IsOverlappingView_collection_raw A :
  (forall other : list Image,
     IsOverlappingView_array A other
       = IsOverlappingView_array A (List.filter IsForged other)
     /\ (Forall (fun x => IsForged x = false) other ->
         IsOverlappingView_array A other = Ok false)
     /\ (forall e, IsOverlappingView_array A other = Throw e ->
           e = IMAGE_NOT_FORGED /\ IsForged A = false /\
           exists x, x ∈ other /\ IsForged x = true))
  /\
  (forall other : list (reference_wrapper Image),
     IsOverlappingView_refs A other
       = IsOverlappingView_refs A (List.filter (fun r => IsForged (get r)) other)
     /\ (Forall (fun r => IsForged (get r) = false) other ->
         IsOverlappingView_refs A other = Ok false)
     /\ (forall e, IsOverlappingView_refs A other = Throw e ->
           e = IMAGE_NOT_FORGED /\ IsForged A = false /\
           exists r, r ∈ other /\ IsForged (get r) = true)).
Proof.
  split; intros other; repeat split.
  - exact (loop_skips_raw id A other 0 0).
  - exact (loop_all_raw id A other 0).
  - eapply (loop_throws id); eassumption.
  - eapply (loop_throws id); eassumption.
  - eapply (loop_throws id); eassumption.
  - exact (loop_skips_raw get A other 0 0).
  - exact (loop_all_raw get A other 0).
  - eapply (loop_throws get); eassumption.
  - eapply (loop_throws get); eassumption.
  - eapply (loop_throws get); eassumption.
Qed.

(** ** Mutators that need a raw image *)

(** The test every such mutator starts with. *)
Lemma raw_guard_forged (k : M unit) w :
  IsForged (self w) = true ->
  (forged <- call IsForged ;; dip_ThrowIf forged IMAGE_NOT_RAW ;;; k) w
  = (w, Throw IMAGE_NOT_RAW).
Proof. intros E. unfold bind, call, dip_ThrowIf. rewrite E. reflexivity. Qed.

Lemma raw_guard_raw (k : M unit) w :
  IsForged (self w) = false ->
  (forged <- call IsForged ;; dip_ThrowIf forged IMAGE_NOT_RAW ;;; k) w = k w.
Proof. intros E. unfold bind, call, dip_ThrowIf. rewrite E. reflexivity. Qed.

Lemma run_mutator_forged (c : RawMutator) w :
  IsForged (self w) = true -> run_mutator c w = (w, Throw IMAGE_NOT_RAW).
Proof. intros E. destruct c; apply raw_guard_forged, E. Qed.

Lemma tensor_call_run (f : Tensor -> Tensor * option string) w :
  tensor_call f w
  = (mkWorld (use_count w) (set_tensor_ (fst (f (tensor_ (self w)))) (self w)),
     match snd (f (tensor_ (self w))) with
     | Some what => Throw (Message what)
     | None => Ok tt
     end).
Proof.
  unfold tensor_call, bind, call, assign, throw, ret. simpl.
  destruct (snd (f (tensor_ (self w)))); reflexivity.
Qed.

Lemma run_mutator_raw_not_raw_error (c : RawMutator) w :
  IsForged (self w) = false -> snd (run_mutator c w) <> Throw IMAGE_NOT_RAW.
Proof.
  intros E. destruct c; simpl;
    [unfold SetSizes | unfold SetStrides | unfold SetTensorStride | unfold SetDataType
    | unfold SetTensorSizes | unfold SetTensorSizes_nelems | unfold CopyProperties
    | unfold SetExternalInterface];
    rewrite raw_guard_raw by assumption;
    try rewrite tensor_call_run; simpl; try discriminate.
  - destruct (snd _); discriminate.
  - destruct (snd _); discriminate.
  - unfold bind, call, assign, ret. simpl.
    destruct (bool_decide _); discriminate.
Qed.


(** ** Strip *)

Lemma Strip_protected w :
  IsForged (self w) = true -> IsProtected (self w) = true ->
  Strip w = (w, Throw (Message "Image is protected")).
Proof.
  intros E P. unfold Strip, bind, call, dip_ThrowIf. rewrite E, P. reflexivity.
Qed.

Lemma Strip_raw w : IsForged (self w) = false -> Strip w = (w, Ok tt).
Proof. intros E. unfold Strip, bind, call. rewrite E. reflexivity. Qed.

Lemma Strip_unprotected w :
  IsForged (self w) = true -> IsProtected (self w) = false ->
  Strip w = (mkWorld (release (dataBlock_ (self w)) (use_count w))
                     (set_origin_ nullptr (set_dataBlock_ nullptr (self w))),
             Ok tt).
Proof.
  intros E P. unfold Strip, bind, call, dip_ThrowIf. rewrite E, P. reflexivity.
Qed.

(** The use counts after a pointer to block [p] let go of it. *)
Lemma release_shared p (counts : gmap Z nat) n :
  p <> nullptr -> counts !! p = Some (S (S n)) ->
  release p counts !! p = Some (S n).
Proof.
  intros Hp Hc. unfold release.
  rewrite bool_decide_eq_false_2 by assumption. rewrite Hc.
  apply lookup_insert_eq.
Qed.

Lemma release_last p (counts : gmap Z nat) :
  p <> nullptr -> counts !! p = Some 1%nat ->
  release p counts !! p = None.
Proof.
  intros Hp Hc. unfold release.
  rewrite bool_decide_eq_false_2 by assumption. rewrite Hc.
  apply lookup_delete_eq.
Qed.

Lemma release_other p q (counts : gmap Z nat) :
  q <> p -> release p counts !! q = counts !! q.
Proof.
  intros Hq. unfold release.
  destruct (bool_decide (p = nullptr)); [reflexivity|].
  destruct (counts !! p) as [[|[|n]]|];
    rewrite ?lookup_insert_ne, ?lookup_delete_ne by congruence; reflexivity.
Qed.

(** C2, amended. On a forged image [Strip] throws the "protected" error,
    with nothing changed, when the protect flag is set; otherwise it returns
    with the data block pointer and the origin null, so that the image is
    raw: the block has one owner less, is freed when this image was its last
    owner and stays alive otherwise, and no other block is touched. On a
    raw image [Strip] returns with nothing changed, protected or not. *)
Theorem Strip_spec w :
  (IsForged (self w) = true -> IsProtected (self w) = true ->
   Strip w = (w, Throw (Message "Image is protected")))
  /\
  (IsForged (self w) = true -> IsProtected (self w) = false ->
   let w' := fst (Strip w) in
   let p := dataBlock_ (self w) in
   snd (Strip w) = Ok tt /\
   self w' = set_origin_ nullptr (set_dataBlock_ nullptr (self w)) /\
   IsForged (self w') = false /\
   (forall n, p <> nullptr -> use_count w !! p = Some (S (S n)) ->
              use_count w' !! p = Some (S n)) /\
   (p <> nullptr -> use_count w !! p = Some 1%nat -> use_count w' !! p = None) /\
   (forall q, q <> p -> use_count w' !! q = use_count w !! q))
  /\
  (IsForged (self w) = false -> Strip w = (w, Ok tt)).
Proof.
  split; [apply Strip_protected|]. split; [|apply Strip_raw].
  intros E P w' p. subst w' p. rewrite Strip_unprotected by assumption. simpl.
  repeat split.
  - intros n. apply release_shared.
  - apply release_last.
  - intros q. apply release_other.
Qed.

(** ** Failures *)

(** C7. A mutator that needs a raw image, called on a forged image, throws
    with the world as it was; so does [Strip] on a protected forged image;
    and a query that needs a forged image throws on a raw image, with the
    world as it was. *)
Theorem failure_leaves_image_unchanged w :
  (IsForged (self w) = true ->
   forall c : RawMutator, run_mutator c w = (w, Throw IMAGE_NOT_RAW))
  /\
  (IsForged (self w) = true -> IsProtected (self w) = true ->
   Strip w = (w, Throw (Message "Image is protected")))
  /\
  (IsForged (self w) = false ->
   call_r Data w = (w, Throw IMAGE_NOT_FORGED) /\
   call_r Origin w = (w, Throw IMAGE_NOT_FORGED) /\
   call_r HasContiguousData w = (w, Throw IMAGE_NOT_FORGED) /\
   call_w IsShared w = (w, Throw IMAGE_NOT_FORGED) /\
   call_w ShareCount w = (w, Throw IMAGE_NOT_FORGED) /\
   (forall other,
      call_r (fun this => SharesData this other) w = (w, Throw IMAGE_NOT_FORGED) /\
      call_r (fun this => IsIdenticalView this other) w = (w, Throw IMAGE_NOT_FORGED) /\
      call_r (fun this => IsOverlappingView this other) w
      = (w, Throw IMAGE_NOT_FORGED))).
Proof.
  split; [intros E c; apply run_mutator_forged, E|].
  split; [apply Strip_protected|].
  intros E. unfold call_r, call_w, Data, Origin, HasContiguousData, IsShared, ShareCount.
  rewrite E. simpl. repeat split.
  - unfold SharesData. rewrite E. reflexivity.
  - unfold IsIdenticalView. rewrite E. reflexivity.
  - rewrite IsOverlappingView_raw by auto. reflexivity.
Qed.

End ImageFacts.

(** * The model at work

    The theorems above applied to the images of [Demo]. *)

Import Demo.

(** Two sub-ranges of one line: pixel 0 and pixels 1..2 share no sample,
    the whole line and pixels 1..2 do. *)
Example disjoint_ranges_do_not_alias : Aliases line3_head line3_tail = Ok false.
Proof. reflexivity. Qed.

Example overlapping_ranges_alias : Aliases line3 line3_tail = Ok true.
Proof. reflexivity. Qed.

Example identical_view_does_not_overlap : IsOverlappingView line3 (QuickCopy line3) = Ok false.
Proof. reflexivity. Qed.

Example collection_leaves_at_first_overlap :
  IsOverlappingView_loop id line3 [raw_protected; line3; line3_tail; other_block] 0
  = (2%nat, Ok true).
Proof. reflexivity. Qed.

Example raw_image_meets_forged_candidate :
  IsOverlappingView_array raw_protected [raw_protected; line3] = Throw IMAGE_NOT_FORGED.
Proof. reflexivity. Qed.

Example quick_copy_of_protected :
  QuickCopy line3_protected
  = @mkImage support DT_SFLOAT [3%N] [1] 1%N 1 false EmptyString tt 1000 1000 77.
Proof. reflexivity. Qed.

Lemma IsOverlappingView_spec_witness :
  IsForged line3 = true /\ IsForged line3_tail = true /\
  (exists b, IsOverlappingView line3 line3_tail = Ok b) /\
  (IsOverlappingView line3 line3_tail = Ok true <->
   Aliases line3 line3_tail = Ok true /\ IsIdenticalView line3 line3_tail = Ok false).
Proof.
  split; [reflexivity|]. split; [reflexivity|].
  apply (IsOverlappingView_spec line3 line3_tail); reflexivity.
Defined.

Lemma Aliases_symmetric_witness :
  IsForged line3_head = true /\ IsForged line3_tail = true /\
  exists b, Aliases line3_head line3_tail = Ok b /\ Aliases line3_tail line3_head = Ok b.
Proof.
  split; [reflexivity|]. split; [reflexivity|].
  apply (Aliases_symmetric line3_head line3_tail); reflexivity.
Defined.

Lemma IsIdenticalView_spec_witness :
  (exists b, IsIdenticalView line3 line3_head = Ok b /\
     (b = true <->
      origin_ line3 = origin_ line3_head /\ dataType_ line3 = dataType_ line3_head /\
      strides_ line3 = strides_ line3_head /\
      tensorStride_ line3 = tensorStride_ line3_head))
  /\ IsIdenticalView line3 raw_protected = Throw IMAGE_NOT_FORGED.
Proof.
  split.
  - apply (proj1 (IsIdenticalView_spec line3 line3_head)); reflexivity.
  - apply (proj2 (IsIdenticalView_spec line3 raw_protected)). right. reflexivity.
Defined.

Lemma SharesData_spec_witness :
  SharesData raw_protected line3 = Throw IMAGE_NOT_FORGED
  /\ (exists b, SharesData line3 other_block = Ok b /\
        (b = true <-> dataBlock_ line3 = dataBlock_ other_block))
  /\ SharesData line3_tail line3_head = SharesData line3 line3.
Proof.
  split; [|split].
  - apply (proj1 (SharesData_spec raw_protected line3)). left. reflexivity.
  - apply (proj2 (SharesData_spec line3 other_block)); reflexivity.
  - apply (proj2 (SharesData_spec line3 line3)); reflexivity.
Defined.

Lemma IsOverlappingView_collection_spec_witness :
  let other := [raw_protected; line3; line3_tail; other_block] in
  IsForged line3 = true /\
  first_overlap_at id line3 other 2 /\
  (exists b, IsOverlappingView_array line3 other = Ok b /\
     (b = true <-> exists x, x ∈ other /\ IsOverlappingView line3 x = Ok true)) /\
  IsOverlappingView_loop id line3 (take 3 other ++ [raw_protected; line3_tail]) 0
  = (2%nat, Ok true).
Proof.
  intros other.
  assert (Hfirst : first_overlap_at id line3 other 2).
  { split.
    - exists line3_tail. split; reflexivity.
    - intros [|[|j]] y Hj Hy; [| |lia]; injection Hy as <-; discriminate. }
  split; [reflexivity|]. split; [exact Hfirst|].
  split.
  - apply (proj1 (IsOverlappingView_collection_spec line3 eq_refl) other).
  - apply (proj1 (IsOverlappingView_collection_spec line3 eq_refl) other).
    exact Hfirst.
Defined.

Lemma IsOverlappingView_collection_raw_witness :
  IsOverlappingView_array raw_protected [raw_protected; Image_default] = Ok false /\
  (IMAGE_NOT_FORGED = IMAGE_NOT_FORGED /\ IsForged raw_protected = false /\
   exists x, x ∈ [raw_protected; line3] /\ IsForged x = true).
Proof.
  split.
  - apply (proj1 (IsOverlappingView_collection_raw raw_protected)
             [raw_protected; Image_default]).
    repeat constructor.
  - apply (proj1 (IsOverlappingView_collection_raw raw_protected)
             [raw_protected; line3]).
    reflexivity.
Defined.


Lemma Strip_spec_witness :
  Strip (world_of line3_protected 1)
  = (world_of line3_protected 1, Throw (Message "Image is protected"))
  /\ (snd (Strip (world_of line3 2)) = Ok tt /\
      IsForged (self (fst (Strip (world_of line3 2)))) = false /\
      use_count (fst (Strip (world_of line3 2))) !! 1000 = Some 1%nat)
  /\ use_count (fst (Strip (world_of line3 1))) !! 1000 = None
  /\ Strip (raw_world raw_protected) = (raw_world raw_protected, Ok tt).
Proof.
  split; [|split; [|split]].
  - apply (proj1 (Strip_spec (world_of line3_protected 1))); reflexivity.
  - destruct (proj1 (proj2 (Strip_spec (world_of line3 2))) eq_refl eq_refl)
      as (Hret & _ & Hraw & Hshared & _).
    split; [exact Hret|]. split; [exact Hraw|].
    apply (Hshared 0%nat); [discriminate | reflexivity].
  - destruct (proj1 (proj2 (Strip_spec (world_of line3 1))) eq_refl eq_refl)
      as (_ & _ & _ & _ & Hlast & _).
    apply Hlast; [discriminate | reflexivity].
  - apply (proj2 (proj2 (Strip_spec (raw_world raw_protected)))). reflexivity.
Defined.

Lemma failure_leaves_image_unchanged_witness :
  run_mutator (Call_SetDataType DT_UINT8) (world_of line3 1)
  = (world_of line3 1, Throw IMAGE_NOT_RAW)
  /\ Strip (world_of line3_protected 2)
     = (world_of line3_protected 2, Throw (Message "Image is protected"))
  /\ call_r Origin (raw_world raw_protected)
     = (raw_world raw_protected, Throw IMAGE_NOT_FORGED).
Proof.
  split; [|split].
  - apply (proj1 (failure_leaves_image_unchanged (world_of line3 1))). reflexivity.
  - apply (proj1 (proj2 (failure_leaves_image_unchanged (world_of line3_protected 2))));
      reflexivity.
  - apply (proj2 (proj2 (failure_leaves_image_unchanged (raw_world raw_protected)))).
    reflexivity.
Defined.


(** With a tensor that, like the one [TensorSizes] of image.h describes, has
    at most two sizes, [SetTensorSizes] given three throws on a raw image and
    the tensor is as it was. *)
Example SetTensorSizes_three_sizes :
  snd (SetTensorSizes [2%N; 2%N; 2%N] (raw_world Image_default))
  = Throw (Message "Tensor dimensionalities higher than 2 not supported.") /\
  tensor_ (self (fst (SetTensorSizes [2%N; 2%N; 2%N] (raw_world Image_default))))
  = tensor_ (@Image_default support).
Proof. split; reflexivity. Qed.

(** On a raw image whose protect flag is set [Strip] returns: the flag alone
    does not make it fail. *)
Lemma Strip_raw_protected_counterexample :
  IsProtected (self (raw_world raw_protected)) = true /\
  Strip (raw_world raw_protected) = (raw_world raw_protected, Ok tt) /\
  ~ (forall w : @World support,
       IsProtected (self w) = true -> exists e, snd (Strip w) = Throw e).
Proof.
  split; [reflexivity|]. split; [reflexivity|].
  intros Hfails. destruct (Hfails (raw_world raw_protected) eq_refl) as [e He].
  discriminate He.
Defined.


(** * Further properties of [dip::Image] *)

Section ImageCopiesFacts.
Context `{Support}.
Implicit Types A B C this other : Image.
Implicit Types w : World.

(** ** The comparisons as relations *)

Lemma IsIdenticalView_true A B :
  IsIdenticalView A B = Ok true <->
  IsForged A = true /\ IsForged B = true /\
  origin_ A = origin_ B /\ dataType_ A = dataType_ B /\
  strides_ A = strides_ B /\ tensorStride_ A = tensorStride_ B.
Proof.
  unfold IsIdenticalView.
  destruct (IsForged A) eqn:EA, (IsForged B) eqn:EB; simpl;
    try (split; [discriminate | intros (? & ? & _); discriminate]).
  split.
  - intros [= E]. rewrite !andb_true_iff, !bool_decide_eq_true in E. tauto.
  - intros (_ & _ & E). f_equal.
    rewrite !andb_true_iff, !bool_decide_eq_true. tauto.
Qed.

Lemma SharesData_true A B :
  SharesData A B = Ok true <->
  IsForged A = true /\ IsForged B = true /\ dataBlock_ A = dataBlock_ B.
Proof.
  unfold SharesData.
  destruct (IsForged A) eqn:EA, (IsForged B) eqn:EB; simpl;
    try (split; [discriminate | intros (? & ? & _); discriminate]).
  split.
  - intros [= E]. apply bool_decide_eq_true in E. auto.
  - intros (_ & _ & E). f_equal. apply bool_decide_eq_true, E.
Qed.

(** X1. [IsIdenticalView] is an equivalence on forged images: a forged image
    is an identical view of itself, the answer (or the error) is the same
    with the two images exchanged, and identical views of identical views
    are identical. *)
Theorem IsIdenticalView_equivalence :
  (forall A, IsForged A = true -> IsIdenticalView A A = Ok true) /\
  (forall A B, IsIdenticalView A B = IsIdenticalView B A) /\
  (forall A B C, IsIdenticalView A B = Ok true -> IsIdenticalView B C = Ok true ->
                 IsIdenticalView A C = Ok true).
Proof.
  split; [|split].
  - intros A EA. apply IsIdenticalView_true. auto 10.
  - intros A B. unfold IsIdenticalView.
    destruct (IsForged A), (IsForged B); simpl; try reflexivity.
    f_equal. apply eq_true_iff_eq.
    rewrite !andb_true_iff, !bool_decide_eq_true. intuition congruence.
  - intros A B C HAB HBC. apply IsIdenticalView_true in HAB, HBC.
    apply IsIdenticalView_true. intuition congruence.
Qed.

(** X2. [SharesData] is an equivalence on forged images, and images that
    are identical views of each other need not share data for the code to
    say so: the test of [IsIdenticalView] does not look at the data block. *)
Theorem SharesData_equivalence :
  (forall A, IsForged A = true -> SharesData A A = Ok true) /\
  (forall A B, SharesData A B = SharesData B A) /\
  (forall A B C, SharesData A B = Ok true -> SharesData B C = Ok true ->
                 SharesData A C = Ok true) /\
  (forall A B p, IsIdenticalView A B = Ok true ->
                 IsIdenticalView A (set_dataBlock_ p B) = Ok true).
Proof.
  split; [|split; [|split]].
  - intros A EA. apply SharesData_true. auto.
  - intros A B. unfold SharesData.
    destruct (IsForged A), (IsForged B); simpl; try reflexivity.
    f_equal. apply eq_true_iff_eq. rewrite !bool_decide_eq_true. intuition congruence.
  - intros A B C HAB HBC. apply SharesData_true in HAB, HBC.
    apply SharesData_true. intuition congruence.
  - intros A B p HAB. apply IsIdenticalView_true in HAB.
    apply IsIdenticalView_true. exact HAB.
Qed.

(** X3. Identical views never count as overlapping: when
    [A.IsIdenticalView(B)] is true, [A.IsOverlappingView(B)] returns false.
    In particular a forged image does not overlap itself, nor its quick
    copy. *)
Theorem identical_views_do_not_overlap A B :
  IsIdenticalView A B = Ok true ->
  IsOverlappingView A B = Ok false /\
  IsOverlappingView A A = Ok false /\
  IsOverlappingView (QuickCopy A) A = Ok false.
Proof.
  intros HAB.
  assert (Hno : forall X Y, IsIdenticalView X Y = Ok true -> IsOverlappingView X Y = Ok false).
  { intros X Y HXY. unfold IsOverlappingView. rewrite HXY.
    apply IsIdenticalView_true in HXY. destruct HXY as (EX & EY & _).
    destruct (Aliases_returns X Y EX EY) as [[|] ->]; reflexivity. }
  apply IsIdenticalView_true in HAB as HAB'. destruct HAB' as (EA & _).
  split; [apply Hno, HAB|]. split.
  - apply Hno. apply IsIdenticalView_true. auto 10.
  - apply Hno. apply QuickCopy_forged, EA.
Qed.

(** ** Collections, again *)

Lemma loop_outcome_counter {T} (elem : T -> Image) A (other : list T) ii jj :
  snd (IsOverlappingView_loop elem A other ii)
  = snd (IsOverlappingView_loop elem A other jj).
Proof.
  revert ii jj. induction other as [|x rest IH]; intros ii jj; [reflexivity|].
  rewrite !loop_cons. destruct (and_then _ _) as [[|]|e]; simpl; auto.
Qed.

(** A candidate is either passed over, found to overlap, or, when [A] is
    raw and the candidate forged, the cause of the not-forged error. *)
Lemma candidate_cases A tmp :
  let c := and_then (Ok (IsForged tmp)) (IsOverlappingView A tmp) in
  (IsForged A = true /\ exists b, c = Ok b) \/
  (IsForged A = false /\ (c = Ok false \/ c = Throw IMAGE_NOT_FORGED)).
Proof.
  intros c. subst c. destruct (IsForged A) eqn:EA.
  - left. split; [reflexivity|]. apply candidate_returns, EA.
  - right. split; [reflexivity|]. destruct (IsForged tmp) eqn:ET; simpl; [|auto].
    right. apply IsOverlappingView_raw. auto.
Qed.

Lemma loop_permutation {T} (elem : T -> Image) A (l l' : list T) ii :
  l ≡ₚ l' ->
  snd (IsOverlappingView_loop elem A l ii) = snd (IsOverlappingView_loop elem A l' ii).
Proof.
  intros Hperm. revert ii.
  induction Hperm as [|x l l' _ IH|x y l|l l' l'' _ IH1 _ IH2]; intros ii.
  - reflexivity.
  - rewrite !loop_cons. destruct (and_then _ _) as [[|]|e]; simpl; auto.
  - rewrite !loop_cons.
    destruct (candidate_cases A (elem x)) as [[EA [bx Ex]] | [EA [Ex | Ex]]];
      destruct (candidate_cases A (elem y)) as [[EA' [by' Ey]] | [EA' [Ey | Ey]]];
      try congruence; rewrite ?Ex, ?Ey; simpl;
      try destruct bx; try destruct by'; simpl; rewrite ?Ex, ?Ey; reflexivity.
  - rewrite IH1. apply IH2.
Qed.

(** X4. The outcome of the collection overloads of [IsOverlappingView] does
    not depend on the order of the candidates, for any image A, forged or
    raw. *)
Theorem IsOverlappingView_collection_order A :
  (forall l l' : list Image,
     l ≡ₚ l' -> IsOverlappingView_array A l = IsOverlappingView_array A l') /\
  (forall l l' : list (reference_wrapper Image),
     l ≡ₚ l' -> IsOverlappingView_refs A l = IsOverlappingView_refs A l').
Proof.
  split; intros l l' Hperm.
  - exact (loop_permutation id A l l' 0 Hperm).
  - exact (loop_permutation get A l l' 0 Hperm).
Qed.

Lemma loop_map {T U} (f : T -> U) (elem : U -> Image) A (l : list T) ii :
  IsOverlappingView_loop elem A (map f l) ii
  = IsOverlappingView_loop (fun x => elem (f x)) A l ii.
Proof.
  revert ii. induction l as [|x rest IH]; intros ii; [reflexivity|].
  cbn [map]. rewrite !loop_cons, IH. reflexivity.
Qed.

(** X5. The two collection overloads agree: an array of references gives
    the outcome that the array of the images referred to gives. *)
Theorem IsOverlappingView_overloads_agree A (other : list (reference_wrapper Image)) :
  IsOverlappingView_refs A other = IsOverlappingView_array A (map get other).
Proof.
  unfold IsOverlappingView_refs, IsOverlappingView_array.
  rewrite loop_map. reflexivity.
Qed.

(** ** What the mutators leave alone *)

(** X6. A mutator that needs a raw image never changes the origin, the data
    block, the protect flag or the use counts, whether it returns or
    throws; in particular it leaves a raw image raw. *)
Theorem raw_mutators_frame (c : RawMutator) w :
  let w' := fst (run_mutator c w) in
  origin_ (self w') = origin_ (self w) /\
  dataBlock_ (self w') = dataBlock_ (self w) /\
  protect_ (self w') = protect_ (self w) /\
  IsForged (self w') = IsForged (self w) /\
  use_count w' = use_count w.
Proof.
  intros w'. subst w'.
  destruct (IsForged (self w)) eqn:E.
  - rewrite run_mutator_forged by assumption. simpl. rewrite E. auto.
  - assert (Hframe : forall w1 : World,
              origin_ (self w1) = origin_ (self w) ->
              dataBlock_ (self w1) = dataBlock_ (self w) ->
              protect_ (self w1) = protect_ (self w) ->
              use_count w1 = use_count w ->
              origin_ (self w1) = origin_ (self w) /\
              dataBlock_ (self w1) = dataBlock_ (self w) /\
              protect_ (self w1) = protect_ (self w) /\
              IsForged (self w1) = false /\
              use_count w1 = use_count w).
    { intros w1 Ho Hb Hp Hc. repeat split; try assumption.
      unfold IsForged in *. rewrite Ho. exact E. }
    destruct c; simpl;
      [unfold SetSizes | unfold SetStrides | unfold SetTensorStride | unfold SetDataType
      | unfold SetTensorSizes | unfold SetTensorSizes_nelems | unfold CopyProperties
      | unfold SetExternalInterface];
      rewrite raw_guard_raw by assumption;
      try rewrite tensor_call_run; try (apply Hframe; reflexivity).
    unfold bind, call, assign, ret. simpl.
    destruct (bool_decide _); apply Hframe; reflexivity.
Qed.

(** X7. The member functions that set the protect flag, the colour space
    and the pixel size never throw, on a forged image as on a raw one, and
    change neither the geometry nor the storage of the image; after
    [ResetColorSpace] the image is not a colour image, after
    [SetColorSpace(cs)] it is one exactly when [cs] is not empty. *)
Theorem tag_mutators_spec (c : TagMutator) w :
  let w' := fst (run_tag c w) in
  snd (run_tag c w) = Ok tt /\
  (dataType_ (self w') = dataType_ (self w) /\
   sizes_ (self w') = sizes_ (self w) /\
   strides_ (self w') = strides_ (self w) /\
   tensor_ (self w') = tensor_ (self w) /\
   tensorStride_ (self w') = tensorStride_ (self w) /\
   dataBlock_ (self w') = dataBlock_ (self w) /\
   origin_ (self w') = origin_ (self w) /\
   externalInterface_ (self w') = externalInterface_ (self w) /\
   use_count w' = use_count w) /\
  IsColor (self (fst (ResetColorSpace w))) = false /\
  (forall cs, IsColor (self (fst (SetColorSpace cs w))) = true <-> cs <> EmptyString).
Proof.
  intros w'. subst w'. split; [destruct c; reflexivity|].
  split; [destruct c; repeat split|].
  split; [reflexivity|].
  intros cs. unfold IsColor. simpl.
  rewrite negb_true_iff, bool_decide_eq_false. reflexivity.
Qed.

(** ** Strip, and what may follow it *)

Lemma Strip_cases w :
  (IsForged (self w) = true /\ IsProtected (self w) = true /\
   Strip w = (w, Throw (Message "Image is protected"))) \/
  (IsForged (self w) = true /\ IsProtected (self w) = false /\
   Strip w = (mkWorld (release (dataBlock_ (self w)) (use_count w))
                      (set_origin_ nullptr (set_dataBlock_ nullptr (self w))),
              Ok tt)) \/
  (IsForged (self w) = false /\ Strip w = (w, Ok tt)).
Proof.
  destruct (IsForged (self w)) eqn:E; [|right; right; split; [reflexivity | apply Strip_raw, E]].
  destruct (IsProtected (self w)) eqn:P.
  - left. repeat split. apply Strip_protected; assumption.
  - right; left. repeat split. apply Strip_unprotected; assumption.
Qed.

(** X8. Whenever [Strip] returns the image is raw, and a second [Strip]
    changes nothing and returns; the one exception [Strip] can throw is the
    "protected" one, and only on a forged image whose protect flag is
    set. *)
Theorem Strip_idempotent w :
  (snd (Strip w) = Ok tt ->
   IsForged (self (fst (Strip w))) = false /\
   Strip (fst (Strip w)) = (fst (Strip w), Ok tt)) /\
  (forall e, snd (Strip w) = Throw e ->
     e = Message "Image is protected" /\
     IsForged (self w) = true /\ IsProtected (self w) = true).
Proof.
  destruct (Strip_cases w) as [(E & P & ->) | [(E & P & ->) | (E & ->)]]; simpl.
  - split; [discriminate|]. intros e [= <-]. auto.
  - split; [|discriminate]. intros _. split; [reflexivity|]. apply Strip_raw. reflexivity.
  - split; [|discriminate]. intros _. split; [assumption|]. apply Strip_raw, E.
Qed.

(** X9. After a [Strip] that returned, no mutator that needs a raw image
    throws the not-raw error: [Strip] followed by such a mutator either
    throws the "protected" error of [Strip], with nothing changed, or goes
    on to run the mutator on a raw image. *)
Theorem Strip_then_raw_mutator (c : RawMutator) w :
  snd ((Strip ;;; run_mutator c) w) <> Throw IMAGE_NOT_RAW /\
  (IsForged (self w) = true -> IsProtected (self w) = true ->
   (Strip ;;; run_mutator c) w = (w, Throw (Message "Image is protected"))) /\
  (IsProtected (self w) = false ->
   (Strip ;;; run_mutator c) w = run_mutator c (fst (Strip w)) /\
   IsForged (self (fst (Strip w))) = false).
Proof.
  unfold bind.
  destruct (Strip_cases w) as [(E & P & ->) | [(E & P & ->) | (E & ->)]]; simpl.
  - split; [discriminate|]. split; [reflexivity|]. congruence.
  - split; [apply run_mutator_raw_not_raw_error; reflexivity|].
    split; [congruence|]. intros _. split; reflexivity.
  - split; [apply run_mutator_raw_not_raw_error; assumption|].
    split; [congruence|]. intros _. split; [reflexivity | assumption].
Qed.

(** ** Copies *)

Lemma copy_assign_run (src : Image) (c : Z) (s : Owners) :
  copy_assign src c s
  = (mkOwners (release (this_control s) (acquire c (owners s))) c src, Ok tt).
Proof. destruct src. reflexivity. Qed.

Lemma release_acquire (p : Z) (counts : gmap Z nat) n :
  counts !! p = Some (S n) -> release p (acquire p counts) = counts.
Proof.
  intros Hc. unfold release, acquire.
  destruct (decide (p = 0)) as [-> | Hp]; [reflexivity|].
  rewrite !bool_decide_eq_false_2 by exact Hp.
  rewrite lookup_insert_eq. rewrite Hc. simpl.
  rewrite insert_insert_eq. apply insert_id, Hc.
Qed.

Lemma release_null (counts : gmap Z nat) : release nullptr counts = counts.
Proof. reflexivity. Qed.

Lemma acquire_other c q (counts : gmap Z nat) :
  q <> c -> acquire c counts !! q = counts !! q.
Proof.
  intros Hq. unfold acquire. destruct (bool_decide (c = no_control)); [reflexivity|].
  apply lookup_insert_ne. congruence.
Qed.

Lemma acquire_gains c (counts : gmap Z nat) n :
  c <> no_control -> counts !! c = Some n -> acquire c counts !! c = Some (S n).
Proof.
  intros Hc Hn. unfold acquire. rewrite bool_decide_eq_false_2 by assumption.
  rewrite lookup_insert_eq, Hn. reflexivity.
Qed.

(** Where the control block of the image goes by the address it holds, the
    functions that count per control block do what the functions of the
    [World] do. *)
Lemma Strip_owned_agrees (s : Owners) :
  this_control s = dataBlock_ (this_image s) ->
  World_of_Owners (fst (Strip_owned s)) = fst (Strip (World_of_Owners s)) /\
  snd (Strip_owned s) = snd (Strip (World_of_Owners s)) /\
  this_control (fst (Strip_owned s)) = dataBlock_ (this_image (fst (Strip_owned s))).
Proof.
  intros Hkey. unfold Strip_owned.
  destruct (Strip_cases (World_of_Owners s)) as [(E & P & ->) | [(E & P & ->) | (E & ->)]];
    simpl in E |- *; rewrite E; try (simpl in P; rewrite P); simpl; auto.
  rewrite Hkey. auto.
Qed.

Lemma ShareCount_owned_agrees (s : Owners) :
  this_control s = dataBlock_ (this_image s) ->
  ShareCount_owned s = ShareCount (World_of_Owners s) /\
  IsShared_owned s = IsShared (World_of_Owners s).
Proof.
  intros Hkey. unfold ShareCount_owned, ShareCount, IsShared_owned, IsShared.
  simpl. rewrite Hkey. auto.
Qed.

(** X10. Copy assignment makes the image equal to [src] in every data
    member, the protect flag included, so that a forged [src] gets an
    identical view that shares its data, and the pointer of the image comes
    under the control block of [src]. That control block gains an owner and
    the one the image was under loses one (and goes when that was its last
    owner); the use counts are as before when the two are one and the same
    control block. *)
Theorem copy_assign_spec (src : Image) (c : Z) (s : Owners) :
  let s' := fst (copy_assign src c s) in
  snd (copy_assign src c s) = Ok tt /\
  this_image s' = src /\
  this_control s' = c /\
  (IsForged src = true ->
   IsIdenticalView (this_image s') src = Ok true /\
   SharesData (this_image s') src = Ok true) /\
  owners s' = release (this_control s) (acquire c (owners s)) /\
  (forall n, this_control s = c -> owners s !! c = Some (S n) ->
             owners s' = owners s) /\
  (forall n, this_control s <> c -> c <> no_control ->
             owners s !! c = Some (S n) ->
             owners s' !! c = Some (S (S n))) /\
  (forall m, this_control s <> c -> this_control s <> no_control ->
             owners s !! this_control s = Some (S (S m)) ->
             owners s' !! this_control s = Some (S m)) /\
  (this_control s <> c -> this_control s <> no_control ->
   owners s !! this_control s = Some 1%nat ->
   owners s' !! this_control s = None).
Proof.
  intros s'. subst s'. rewrite copy_assign_run. simpl.
  split; [reflexivity|]. split; [reflexivity|]. split; [reflexivity|].
  split; [|split; [reflexivity|]].
  - intros E. split.
    + apply IsIdenticalView_true. auto 10.
    + apply SharesData_true. auto.
  - split; [|split; [|split]].
    + intros n -> Hc. eapply release_acquire, Hc.
    + intros n Hother Hc Hn. rewrite release_other by congruence.
      apply acquire_gains; assumption.
    + intros m Hother Hold Hm. apply release_shared; [exact Hold|].
      rewrite acquire_other by assumption. exact Hm.
    + intros Hother Hold Hm. apply release_last; [exact Hold|].
      rewrite acquire_other by assumption. exact Hm.
Qed.

(** X11. A raw image that holds no block, assigned a forged image that is
    not protected and then stripped, is raw again, and the use counts are
    what they were: the view came and went without a trace. *)
Theorem copy_assign_then_Strip (src : Image) (c : Z) (s : Owners) n :
  IsForged src = true -> IsProtected src = false ->
  this_control s = no_control ->
  owners s !! c = Some (S n) ->
  let r := Strip_owned (fst (copy_assign src c s)) in
  snd r = Ok tt /\
  IsForged (this_image (fst r)) = false /\
  owners (fst r) = owners s /\
  this_control (fst r) = no_control.
Proof.
  intros E P Hnone Hc r. subst r.
  rewrite copy_assign_run, Hnone. simpl. change (release no_control) with (release nullptr).
  rewrite release_null. unfold Strip_owned. simpl. rewrite E, P. simpl.
  split; [reflexivity|]. split; [reflexivity|]. split; [|reflexivity].
  eapply release_acquire, Hc.
Qed.

(** X12. A quick copy can always be stripped, whatever the protect flag of
    the image it was made from; an image assigned from a forged, protected
    image cannot: [Strip] throws the "protected" error. *)
Theorem QuickCopy_strips (A : Image) (counts : gmap Z nat) (c : Z) (s : Owners) :
  snd (Strip (mkWorld counts (QuickCopy A))) = Ok tt /\
  (forall k, snd (Strip_owned (mkOwners counts k (QuickCopy A))) = Ok tt) /\
  (IsForged A = true -> IsProtected A = true ->
   snd (Strip_owned (fst (copy_assign A c s))) = Throw (Message "Image is protected")).
Proof.
  split; [|split].
  - destruct (Strip_cases (mkWorld counts (QuickCopy A)))
      as [(_ & P & _) | [(_ & _ & ->) | (_ & ->)]]; [discriminate P | reflexivity..].
  - intros k. unfold Strip_owned. simpl.
    destruct (IsForged (QuickCopy A)); reflexivity.
  - intros E P. rewrite copy_assign_run. unfold Strip_owned. simpl.
    rewrite E, P. reflexivity.
Qed.

(** X13. After an image is assigned a forged [src] whose live control block
    it was not under before, [ShareCount] is one more than the number of
    owners that control block had, and [IsShared] is true; also when the
    image held the same address under a control block of its own. *)
Theorem copy_assign_shares (src : Image) (c : Z) (s : Owners) (n : nat) :
  IsForged src = true ->
  c <> no_control ->
  this_control s <> c ->
  owners s !! c = Some (S n) ->
  ShareCount_owned (fst (copy_assign src c s)) = Ok (N.of_nat (S (S n))) /\
  IsShared_owned (fst (copy_assign src c s)) = Ok true.
Proof.
  intros E Hc Hother Hn. rewrite copy_assign_run.
  unfold ShareCount_owned, IsShared_owned.
  cbn [fst this_image this_control owners]. rewrite E.
  rewrite release_other by congruence. unfold ptr.
  rewrite (acquire_gains c (owners s) (S n)) by assumption.
  split; reflexivity.
Qed.

End ImageCopiesFacts.

(** * Properties of the morphological filters *)

Module MorphologyFacts.
Import Morphology.

Ltac split_flags :=
  repeat match goal with
         | |- context [String.eqb ?s ?t] => destruct (String.eqb_spec s t)
         end.

Ltac run_flags :=
  unfold Tophat, MorphologicalThreshold, MorphologicalGist, MorphologicalRange,
    Lee, MorphologicalSmoothing, GetEdgeType;
  split_flags.

(** ** Reading [in] after writing [out] *)

Lemma reads_in_after_out_b_spec (written : bool) (cs : list Call) :
  reads_in_after_out_b written cs = true <->
  (written = true /\ exists c, c ∈ cs /\ v_in ∈ reads c) \/ reads_in_after_out cs.
Proof.
  revert written. induction cs as [|c rest IH]; intros written; simpl.
  - split; [discriminate|].
    intros [(_ & c & Hc & _) | (pre & c & post & E & _)].
    + inversion Hc.
    + destruct pre; discriminate.
  - rewrite orb_true_iff, andb_true_iff, bool_decide_eq_true, IH, orb_true_iff,
      bool_decide_eq_true.
    split.
    + intros [[W R] | [[[W | W] (c' & Hc' & R)] | (pre & c' & post & -> & Hw & R)]].
      * left. split; [assumption|]. exists c. split; [left | assumption].
      * left. split; [assumption|]. exists c'. split; [right; assumption | assumption].
      * right. apply list_elem_of_split in Hc' as (l1 & l2 & ->).
        exists (c :: l1), c', l2. split; [reflexivity|].
        split; [|assumption]. exists c. split; [left | assumption].
      * right. exists (c :: pre), c', post. split; [reflexivity|].
        split; [|assumption]. destruct Hw as (c'' & Hin & Hw).
        exists c''. split; [right; assumption | assumption].
    + intros [(W & c' & Hc' & R) | (pre & c' & post & E & (c'' & Hin & Hw) & R)].
      * apply elem_of_cons in Hc' as [-> | Hc'].
        -- left. auto.
        -- right. left. split; [left; assumption|]. exists c'. auto.
      * destruct pre as [|c0 pre]; [inversion Hin|].
        simpl in E. injection E as <- ->.
        apply elem_of_cons in Hin as [-> | Hin].
        -- right. left. split; [right; assumption|].
           exists c'. split; [|assumption].
           apply elem_of_app. right. left.
        -- right. right. exists pre, c', post. split; [reflexivity|].
           split; [|assumption]. exists c''. auto.
Qed.

Lemma no_read_in_after_out (cs : list Call) :
  reads_in_after_out_b false cs = false -> ~ reads_in_after_out cs.
Proof.
  intros Hb Hr.
  assert (Ht : reads_in_after_out_b false cs = true)
    by (apply reads_in_after_out_b_spec; right; exact Hr).
  congruence.
Qed.

(** X14. Whatever flags they are given, [Tophat],
    [MorphologicalThreshold], [MorphologicalGist], [MorphologicalRange],
    [Lee], [MorphologicalSmoothing] and [MorphologicalLaplace] never read
    [in] once a call has been given [out] to write: where the input is
    needed after that, it is read through the copy [c_in]. *)
Theorem in_not_read_after_out_written (edgeType polarity sign mode : string) :
  ~ reads_in_after_out (calls (Tophat edgeType polarity)) /\
  ~ reads_in_after_out (calls (MorphologicalThreshold edgeType)) /\
  ~ reads_in_after_out (calls (MorphologicalGist edgeType)) /\
  ~ reads_in_after_out (calls (MorphologicalRange edgeType)) /\
  ~ reads_in_after_out (calls (Lee edgeType sign)) /\
  ~ reads_in_after_out (calls (MorphologicalSmoothing mode)) /\
  ~ reads_in_after_out (calls MorphologicalLaplace).
Proof.
  repeat split; apply no_read_in_after_out; run_flags; reflexivity.
Qed.

(** ** Flags *)

(** X15. [Tophat], [MorphologicalThreshold], [MorphologicalGist],
    [MorphologicalRange] and [MorphologicalSmoothing] return when their
    flags are among the accepted strings (compared exactly, "dynamic"
    standing for "both"); with any other flag they throw [E::INVALID_FLAG]
    before making a single call. For [Tophat] a wrong polarity is enough, and
    so is a wrong edge type. The edge type "dynamic" gives the run that
    "both" gives. *)
Theorem flags_checked_before_any_call (edgeType polarity mode : string) :
  (valid_edgeType edgeType /\ valid_polarity polarity ->
   ending (Tophat edgeType polarity) = Returned tt) /\
  (~ (valid_edgeType edgeType /\ valid_polarity polarity) ->
   Tophat edgeType polarity = ([], Thrown INVALID_FLAG)) /\
  (valid_edgeType edgeType ->
   ending (MorphologicalThreshold edgeType) = Returned tt /\
   ending (MorphologicalGist edgeType) = Returned tt /\
   ending (MorphologicalRange edgeType) = Returned tt) /\
  (~ valid_edgeType edgeType ->
   MorphologicalThreshold edgeType = ([], Thrown INVALID_FLAG) /\
   MorphologicalGist edgeType = ([], Thrown INVALID_FLAG) /\
   MorphologicalRange edgeType = ([], Thrown INVALID_FLAG)) /\
  (valid_mode mode -> ending (MorphologicalSmoothing mode) = Returned tt) /\
  (~ valid_mode mode -> MorphologicalSmoothing mode = ([], Thrown INVALID_FLAG)) /\
  (Tophat "dynamic" polarity = Tophat "both" polarity /\
   MorphologicalThreshold "dynamic" = MorphologicalThreshold "both" /\
   MorphologicalGist "dynamic" = MorphologicalGist "both" /\
   MorphologicalRange "dynamic" = MorphologicalRange "both").
Proof.
  unfold valid_edgeType, valid_polarity, valid_mode.
  split; [|split; [|split; [|split; [|split; [|split]]]]];
    [| | | | | | repeat apply conj; reflexivity]; intros Hflags;
    repeat apply conj; run_flags; try reflexivity;
    exfalso; intuition congruence.
Qed.

Lemma some_call_writes_out (cs : list Call) :
  existsb (fun c => bool_decide (v_out ∈ writes c)) cs = true ->
  exists c, c ∈ cs /\ v_out ∈ writes c.
Proof.
  intros Hb. apply existsb_exists in Hb as (c & Hin & Hw).
  exists c. split; [apply list_elem_of_In, Hin | apply bool_decide_eq_true in Hw; exact Hw].
Qed.

(** X16. [Lee] checks its [sign] flag last. With an accepted edge type and
    a [sign] that is neither "unsigned" nor "signed" it throws
    [E::INVALID_FLAG] only after it has made all its calls, [out] written
    among them; the calls are the same for every [sign], and the two
    accepted signs give the same run. With an edge type that is not accepted
    it throws before any call, whatever [sign] is. *)
Theorem Lee_checks_sign_last (edgeType sign : string) :
  (valid_edgeType edgeType -> ~ valid_sign sign ->
   ending (Lee edgeType sign) = Thrown INVALID_FLAG /\
   exists c, c ∈ calls (Lee edgeType sign) /\ v_out ∈ writes c) /\
  (valid_edgeType edgeType ->
   calls (Lee edgeType sign) = calls (Lee edgeType "signed") /\
   Lee edgeType "unsigned" = Lee edgeType "signed" /\
   ending (Lee edgeType "signed") = Returned tt) /\
  (~ valid_edgeType edgeType -> Lee edgeType sign = ([], Thrown INVALID_FLAG)).
Proof.
  unfold valid_edgeType, valid_sign.
  split; [|split].
  - intros He Hs. split.
    + run_flags; try reflexivity; exfalso; intuition congruence.
    + apply some_call_writes_out.
      run_flags; try reflexivity; exfalso; intuition congruence.
  - intros He. repeat apply conj; run_flags; try reflexivity;
      exfalso; intuition congruence.
  - intros He. run_flags; try reflexivity; exfalso; intuition congruence.
Qed.

(** ** The multi-scale gradient *)

Lemma uint_wrap_small (z : Z) : (0 <= z < 2 ^ 64)%Z -> uint_wrap z = Z.to_N z.
Proof. intros Hz. unfold uint_wrap. rewrite Z.mod_small by assumption. reflexivity. Qed.

Lemma uint_wrap_bound (z : Z) : (uint_wrap z <= 2 ^ 64 - 1)%N.
Proof.
  unfold uint_wrap.
  pose proof (Z.mod_pos_bound z (2 ^ 64) ltac:(lia)) as Hb.
  change (2 ^ 64 - 1)%N with (Z.to_N (2 ^ 64 - 1)). lia.
Qed.

Lemma MultiScale_loop_runs (count : nat) :
  forall (ii : N) (first : bool) (fuel : nat) (upperSize : N),
    (upperSize < 2 ^ 64 - 1)%N ->
    (ii + N.of_nat count = upperSize + 1)%N ->
    (count <= fuel)%nat ->
    MultiScale_loop fuel upperSize ii first = Some (MultiScale_turns count ii first).
Proof.
  induction count as [|count IH]; intros ii first fuel upperSize Hmax Hii Hfuel.
  - assert (Hexit : (ii <=? upperSize)%N = false) by (apply N.leb_gt; lia).
    destruct fuel; simpl; rewrite Hexit; reflexivity.
  - destruct fuel as [|fuel]; [lia|].
    assert (Hstay : (ii <=? upperSize)%N = true) by (apply N.leb_le; lia).
    cbn [MultiScale_loop MultiScale_turns]. rewrite Hstay.
    assert (Hnext : uint_wrap (Z.of_N ii + 1) = (ii + 1)%N).
    { rewrite uint_wrap_small; [lia|].
      change (2 ^ 64)%Z with (Z.of_N (2 ^ 64)). lia. }
    rewrite Hnext, (IH (ii + 1)%N false fuel upperSize) by lia.
    reflexivity.
Qed.

Lemma MultiScale_loop_forever (fuel : nat) :
  forall (ii : N) (first : bool),
    (ii <= 2 ^ 64 - 1)%N ->
    MultiScale_loop fuel (2 ^ 64 - 1) ii first = None.
Proof.
  induction fuel as [|fuel IH]; intros ii first Hii;
    cbn [MultiScale_loop];
    (assert (Hstay : (ii <=? 2 ^ 64 - 1)%N = true) by (apply N.leb_le; exact Hii));
    rewrite Hstay; [reflexivity|].
  rewrite IH; [reflexivity | apply uint_wrap_bound].
Qed.

Lemma MultiScale_turns_length (count : nat) (ii : N) :
  length (MultiScale_turns count ii false) = (5 * count)%nat /\
  length (MultiScale_turns (S count) ii true) = (4 + 5 * count)%nat.
Proof.
  assert (Hrest : forall c i, length (MultiScale_turns c i false) = (5 * c)%nat).
  { induction c as [|c IH]; intros i; [reflexivity|].
    cbn [MultiScale_turns]. rewrite length_app, IH. simpl. lia. }
  split; [apply Hrest|].
  cbn [MultiScale_turns]. rewrite length_app, Hrest. reflexivity.
Qed.

Lemma MultiScale_run (fuel : nat) (upperSize lowerSize : N) :
  (lowerSize <= upperSize)%N -> (upperSize < 2 ^ 64 - 1)%N ->
  (N.to_nat (upperSize - lowerSize + 1) <= fuel)%nat ->
  MultiScaleMorphologicalGradient fuel upperSize lowerSize
  = Some (MultiScale_turns (N.to_nat (upperSize - lowerSize + 1)) lowerSize true
            ++ [Call_Divide3 v_out
                  (uint32_cast (uint_wrap (Z.of_N upperSize - Z.of_N lowerSize + 1)))
                  v_out],
          Returned tt).
Proof.
  intros Hle Hmax Hfuel. unfold MultiScaleMorphologicalGradient.
  assert (H1 : (Z.of_N lowerSize <? 0)%Z = false) by (apply Z.ltb_ge; lia).
  assert (H2 : (Z.of_N upperSize <? 0)%Z = false) by (apply Z.ltb_ge; lia).
  assert (H3 : (upperSize <? lowerSize)%N = false) by (apply N.ltb_ge; lia).
  rewrite H1, H2, H3.
  rewrite (MultiScale_loop_runs (N.to_nat (upperSize - lowerSize + 1))) by lia.
  reflexivity.
Qed.

(** X17. [MultiScaleMorphologicalGradient] throws "lowerSize > upperSize"
    before any call when the sizes are in the wrong order. Otherwise, with
    [upperSize] below the largest unsigned value, its loop ends and it
    returns after exactly five calls for each of the
    [upperSize - lowerSize + 1] scales. *)
Theorem MultiScale_returns (fuel : nat) (upperSize lowerSize : N) :
  ((upperSize < lowerSize)%N ->
   MultiScaleMorphologicalGradient fuel upperSize lowerSize
   = Some ([], Thrown (What "lowerSize > upperSize"))) /\
  ((lowerSize <= upperSize)%N -> (upperSize < 2 ^ 64 - 1)%N ->
   (N.to_nat (upperSize - lowerSize + 1) <= fuel)%nat ->
   exists cs,
     MultiScaleMorphologicalGradient fuel upperSize lowerSize = Some (cs, Returned tt) /\
     length cs = (5 * N.to_nat (upperSize - lowerSize + 1))%nat).
Proof.
  split.
  - intros Hlt. unfold MultiScaleMorphologicalGradient.
    assert (H1 : (Z.of_N lowerSize <? 0)%Z = false) by (apply Z.ltb_ge; lia).
    assert (H2 : (Z.of_N upperSize <? 0)%Z = false) by (apply Z.ltb_ge; lia).
    assert (H3 : (upperSize <? lowerSize)%N = true) by (apply N.ltb_lt; lia).
    rewrite H1, H2, H3. reflexivity.
  - intros Hle Hmax Hfuel. eexists. split; [apply MultiScale_run; assumption|].
    destruct (N.to_nat (upperSize - lowerSize + 1)) as [|count] eqn:Ec; [lia|].
    rewrite length_app, (proj2 (MultiScale_turns_length count lowerSize)).
    simpl. lia.
Qed.

(** X18. With [upperSize] the largest unsigned value the loop condition
    [ii <= upperSize] never fails: the function does not return, however
    many turns it is given. *)
Theorem MultiScale_never_returns (fuel : nat) (upperSize lowerSize : N) :
  upperSize = (2 ^ 64 - 1)%N -> (lowerSize <= upperSize)%N ->
  MultiScaleMorphologicalGradient fuel upperSize lowerSize = None.
Proof.
  intros -> Hle. unfold MultiScaleMorphologicalGradient.
  assert (H1 : (Z.of_N lowerSize <? 0)%Z = false) by (apply Z.ltb_ge; lia).
  assert (H3 : (2 ^ 64 - 1 <? lowerSize)%N = false) by (apply N.ltb_ge; lia).
  rewrite H1, H3.
  change (Z.of_N (2 ^ 64 - 1) <? 0)%Z with false. cbv iota.
  rewrite MultiScale_loop_forever by assumption. reflexivity.
Qed.

(** X19. With more than one scale [MultiScaleMorphologicalGradient] reads
    [in] after it has been given [out] to write (the first turn of the loop
    writes [out], the second starts from [in] again); with a single scale it
    does not. *)
Theorem MultiScale_reads_in_after_out (fuel : nat) (upperSize lowerSize : N) :
  (lowerSize <= upperSize)%N -> (upperSize < 2 ^ 64 - 1)%N ->
  (N.to_nat (upperSize - lowerSize + 1) <= fuel)%nat ->
  exists cs,
    MultiScaleMorphologicalGradient fuel upperSize lowerSize = Some (cs, Returned tt) /\
    (reads_in_after_out cs <-> (lowerSize < upperSize)%N).
Proof.
  intros Hle Hmax Hfuel. eexists. split; [apply MultiScale_run; assumption|].
  destruct (N.to_nat (upperSize - lowerSize + 1)) as [|[|count]] eqn:Ec; [lia| |].
  - split; [|lia]. intros Hr. exfalso. revert Hr.
    apply no_read_in_after_out. reflexivity.
  - split; [lia|]. intros _.
    cbn [MultiScale_turns]. rewrite <- !app_assoc.
    exists (calls (MultiScale_turn lowerSize true)),
           (Call_Dilation v_in v_dila (SE_of_size (lowerSize + 1))).
    eexists. split; [reflexivity|]. split.
    + exists (Call_Erosion v_eros v_out (SE_of_size (uint_wrap (Z.of_N lowerSize - 1)))).
      split; [|left]. apply list_elem_of_In. simpl. auto 10.
    + left.
Qed.

(** X20. With [lowerSize] zero the first turn of the loop evaluates
    [ii - 1] on an unsigned zero: the erosion that first writes [out] gets a
    structuring element whose size is computed from 18446744073709551615. *)
Theorem MultiScale_lowerSize_zero (fuel : nat) (upperSize : N) :
  (upperSize < 2 ^ 64 - 1)%N ->
  (N.to_nat (upperSize + 1) <= fuel)%nat ->
  exists cs,
    MultiScaleMorphologicalGradient fuel upperSize 0 = Some (cs, Returned tt) /\
    cs !! 3%nat = Some (Call_Erosion v_eros v_out (SE_of_size 18446744073709551615)).
Proof.
  intros Hmax Hfuel. eexists. split.
  - apply MultiScale_run; [lia | assumption |].
    replace (upperSize - 0 + 1)%N with (upperSize + 1)%N by lia. assumption.
  - destruct (N.to_nat (upperSize - 0 + 1)) as [|count] eqn:Ec; [lia|].
    reflexivity.
Qed.

End MorphologyFacts.

(** * Properties of the chain code polygon *)

Module ChainCodesFacts.
Import ChainCodes.

Section PolygonFacts.
Context `{Floats}.

Lemma DecrementMod4_range (k : Z) : 0 <= k < 4 -> 0 <= DecrementMod4 k < 4.
Proof. intros Hk. unfold DecrementMod4. destruct (Z.eqb_spec k 0); lia. Qed.

Lemma push_back_pts_defined (k : Z) (pos : VertexFloat) (polygon : Polygon) :
  0 <= k < 4 -> exists v, push_back_pts k pos polygon = Some (polygon ++ [v]).
Proof.
  intros Hk. assert (Ek : k = 0 \/ k = 1 \/ k = 2 \/ k = 3) by lia.
  destruct Ek as [-> | [-> | [-> | ->]]]; eexists; reflexivity.
Qed.

(** The indices of a turn stay inside the part of [pts] that is filled
    in. *)
Lemma turn_indices_range (is8connected : bool) (m n : Z) :
  code_in_range is8connected m -> code_in_range is8connected n ->
  0 <= fst (turn_indices is8connected m n) < 4 /\
  0 <= snd (turn_indices is8connected m n) < 4.
Proof.
  unfold code_in_range, turn_indices. destruct is8connected; simpl; [|lia].
  intros Hm Hn.
  assert (Em : m = 0 \/ m = 1 \/ m = 2 \/ m = 3 \/ m = 4 \/ m = 5 \/ m = 6 \/ m = 7) by lia.
  assert (En : n = 0 \/ n = 1 \/ n = 2 \/ n = 3 \/ n = 4 \/ n = 5 \/ n = 6 \/ n = 7) by lia.
  clear Hm Hn.
  repeat destruct Em as [-> | Em]; try subst m;
    repeat destruct En as [-> | En]; try subst n; vm_compute; intuition discriminate.
Qed.

Lemma dir_defined (is8connected : bool) (n : Z) :
  code_in_range is8connected n -> exists d, dir is8connected n = Some d.
Proof.
  unfold code_in_range. destruct is8connected; intros Hn.
  - assert (En : n = 0 \/ n = 1 \/ n = 2 \/ n = 3 \/ n = 4 \/ n = 5 \/ n = 6 \/ n = 7) by lia.
    repeat destruct En as [-> | En]; try subst n; eexists; reflexivity.
  - assert (En : n = 0 \/ n = 1 \/ n = 2 \/ n = 3) by lia.
    repeat destruct En as [-> | En]; try subst n; eexists; reflexivity.
Qed.

Lemma turn_defined (is8connected : bool) (m n : Z) (pos : VertexFloat) (polygon : Polygon) :
  code_in_range is8connected m -> code_in_range is8connected n ->
  exists added pos',
    turn is8connected m n pos polygon = Some (polygon ++ added, pos') /\
    length added = vertices_of_turn is8connected (snd (turn_indices is8connected m n)).
Proof.
  intros Hm Hn.
  destruct (turn_indices_range is8connected m n Hm Hn) as [Hk Hl].
  destruct (dir_defined is8connected n Hn) as [d Hd].
  unfold turn, vertices_of_turn.
  destruct (turn_indices is8connected m n) as [k l]. simpl in Hk, Hl. simpl snd.
  pose proof (DecrementMod4_range k Hk) as Hk1.
  pose proof (DecrementMod4_range _ Hk1) as Hk2.
  pose proof (DecrementMod4_range _ Hk2) as Hk3.
  destruct (push_back_pts_defined k pos polygon Hk) as [v0 E0].
  destruct (push_back_pts_defined (DecrementMod4 k) pos (polygon ++ [v0]) Hk1) as [v1 E1].
  destruct (push_back_pts_defined (DecrementMod4 (DecrementMod4 k)) pos
              ((polygon ++ [v0]) ++ [v1]) Hk2) as [v2 E2].
  destruct (push_back_pts_defined (DecrementMod4 (DecrementMod4 (DecrementMod4 k))) pos
              (((polygon ++ [v0]) ++ [v1]) ++ [v2]) Hk3) as [v3 E3].
  rewrite E0. simpl.
  destruct (l =? 0); simpl.
  - rewrite Hd. simpl. exists [v0]. eexists. split; reflexivity.
  - rewrite E1. simpl. destruct (l <=? 2); simpl.
    + rewrite E2. simpl. destruct (is8connected && (l =? 1)); simpl.
      * rewrite E3. simpl. rewrite Hd. simpl.
        exists [v0; v1; v2; v3]. eexists. split; [|reflexivity].
        rewrite <- !app_assoc. reflexivity.
      * rewrite Hd. simpl. exists [v0; v1; v2]. eexists. split; [|reflexivity].
        rewrite <- !app_assoc. reflexivity.
    + rewrite Hd. simpl. exists [v0; v1]. eexists. split; [|reflexivity].
      rewrite <- !app_assoc. reflexivity.
Qed.

Lemma vertices_of_turn_bounds (is8connected : bool) (l : Z) :
  (1 <= vertices_of_turn is8connected l <= if is8connected then 4 else 3)%nat.
Proof.
  unfold vertices_of_turn.
  destruct (l =? 0), (l <=? 2), is8connected, (l =? 1); simpl; lia.
Qed.

Lemma turns_defined (is8connected : bool) (cs : list Z) :
  forall (m : Z) (pos : VertexFloat) (polygon : Polygon),
    code_in_range is8connected m -> Forall (code_in_range is8connected) cs ->
    exists added,
      turns is8connected cs m pos polygon = Some (polygon ++ added) /\
      (length cs <= length added <= (if is8connected then 4 else 3) * length cs)%nat /\
      (is8connected = false -> length added = list_sum (map vertices_of_code4 cs)).
Proof.
  induction cs as [|n rest IH]; intros m pos polygon Hm Hcs.
  - exists []. rewrite app_nil_r. simpl. split; [reflexivity|]. split; [lia | reflexivity].
  - apply Forall_cons in Hcs as [Hn Hrest].
    destruct (turn_defined is8connected m n pos polygon Hm Hn) as (a1 & pos' & E1 & L1).
    destruct (IH n pos' (polygon ++ a1) Hn Hrest) as (a2 & E2 & L2 & S2).
    exists (a1 ++ a2). cbn [turns]. rewrite E1. simpl. rewrite E2, app_assoc.
    split; [reflexivity|].
    pose proof (vertices_of_turn_bounds is8connected
                  (snd (turn_indices is8connected m n))) as Hb.
    rewrite length_app. split.
    + destruct is8connected; simpl length; lia.
    + intros ->. rewrite (S2 eq_refl), L1. cbn [map list_sum]. f_equal.
      unfold code_in_range in Hn. unfold turn_indices, vertices_of_turn. simpl.
      assert (En : n = 0 \/ n = 1 \/ n = 2 \/ n = 3) by lia.
      destruct En as [-> | [-> | [-> | ->]]]; reflexivity.
Qed.

(** X21. For a chain code whose codes are all in range (below 8 when
    8-connected, below 4 otherwise) and that has not exactly one code,
    [dip__ChainCodeToPolygon] returns a polygon, never reading [pts] or
    [dir] outside the entries that are filled in; the polygon has 4 vertices
    when there are no codes, and otherwise at least one per code and at most
    four (8-connected) or three (4-connected) per code. *)
Theorem ChainCodeToPolygon_returns (chainCode : ChainCode) :
  Forall (code_in_range (is8connected chainCode)) (codes chainCode) ->
  length (codes chainCode) <> 1%nat ->
  exists polygon,
    dip__ChainCodeToPolygon chainCode = Some (Ok polygon) /\
    (codes chainCode = [] -> length polygon = 4%nat) /\
    (codes chainCode <> [] ->
     (length (codes chainCode) <= length polygon
      <= (if is8connected chainCode then 4 else 3) * length (codes chainCode))%nat).
Proof.
  intros Hcs Hlen. unfold dip__ChainCodeToPolygon.
  rewrite bool_decide_eq_false_2 by assumption.
  destruct (codes chainCode) as [|n rest] eqn:Ec.
  - eexists. split; [reflexivity|]. split; [reflexivity | congruence].
  - assert (H0 : code_in_range (is8connected chainCode) 0)
      by (unfold code_in_range; destruct (is8connected chainCode); lia).
    destruct (turns_defined (is8connected chainCode) (n :: rest) 0
                (dfloat_of_sint (fst (start chainCode)),
                 dfloat_of_sint (snd (start chainCode))) [] H0 Hcs)
      as (added & E & L & _).
    rewrite E. exists added. split; [reflexivity|].
    split; [discriminate | intros _; exact L].
Qed.

(** X22. A chain code with exactly one code is refused with an exception,
    whatever the code is; a chain code without codes, the single pixel,
    gives the midpoints of the four edges of the start pixel, in the order
    top, left, bottom, right of the tables. *)
Theorem ChainCodeToPolygon_small (chainCode : ChainCode) :
  (length (codes chainCode) = 1%nat ->
   dip__ChainCodeToPolygon chainCode
   = Some (Throw (Message "Received a weird chain code as input (N==2)."))) /\
  (codes chainCode = [] ->
   let pos := (dfloat_of_sint (fst (start chainCode)),
               dfloat_of_sint (snd (start chainCode))) in
   dip__ChainCodeToPolygon chainCode
   = Some (Ok [vertex_add (lit_0_0, lit_minus_0_5) pos;
               vertex_add (lit_minus_0_5, lit_0_0) pos;
               vertex_add (lit_0_0, lit_0_5) pos;
               vertex_add (lit_0_5, lit_0_0) pos])).
Proof.
  unfold dip__ChainCodeToPolygon. split.
  - intros E. rewrite bool_decide_eq_true_2 by assumption. reflexivity.
  - intros E. rewrite E. reflexivity.
Qed.

(** X23. In the 4-connected case the number of vertices a code adds depends
    on that code alone, not on the direction of the step before it: one for
    code 0, three for codes 1 and 2, two for code 3. *)
Theorem ChainCodeToPolygon_4connected_count (chainCode : ChainCode) :
  is8connected chainCode = false ->
  Forall (code_in_range false) (codes chainCode) ->
  (2 <= length (codes chainCode))%nat ->
  exists polygon,
    dip__ChainCodeToPolygon chainCode = Some (Ok polygon) /\
    length polygon = list_sum (map vertices_of_code4 (codes chainCode)).
Proof.
  intros E4 Hcs Hlen. unfold dip__ChainCodeToPolygon.
  rewrite bool_decide_eq_false_2 by lia. rewrite E4.
  destruct (codes chainCode) as [|n rest] eqn:Ec; [simpl in Hlen; lia|].
  assert (H0 : code_in_range false 0) by (unfold code_in_range; lia).
  destruct (turns_defined false (n :: rest) 0
              (dfloat_of_sint (fst (start chainCode)),
               dfloat_of_sint (snd (start chainCode))) [] H0 Hcs)
    as (added & E & _ & S).
  rewrite E. simpl. exists added. split; [reflexivity | apply S; reflexivity].
Qed.

End PolygonFacts.

End ChainCodesFacts.

(** * The further properties at work *)

Module Witnesses.
Import Demo Morphology MorphologyFacts ChainCodes ChainCodesFacts.

(** A raw image that holds no block, next to the control block 1000 of
    [line3], which has one owner. *)
Definition beside_line3 : @Owners support :=
  @mkOwners support (<[1000 := 1%nat]> ∅) no_control Image_default.

(** The tail view of [line3], one of the two owners of control block 1000. *)
Definition tail_of_two : @Owners support :=
  @mkOwners support (<[1000 := 2%nat]> ∅) 1000 line3_tail.

(** Two images made around the buffer at address 1000, each from a
    [shared_ptr] of its own: this one under control block 1000, the other
    under control block 1001, one owner each. *)
Definition apart_at_line3 : @Owners support :=
  @mkOwners support (<[1000 := 1%nat]> (<[1001 := 1%nat]> ∅)) 1000 line3.

(** A square of two by two pixels traced with 8-connected codes, and a
    4-connected walk. *)
Definition square8 : ChainCode := mkChainCode (0, 0) [0; 6; 4; 2] true.
Definition walk4 : ChainCode := mkChainCode (0, 0) [0; 3; 2; 1] false.
Definition lone_code : ChainCode := mkChainCode (0, 0) [9] true.
Definition pixel : ChainCode := mkChainCode (5, 7) [] true.

Lemma IsIdenticalView_equivalence_witness :
  IsIdenticalView line3 line3 = Ok true /\
  IsIdenticalView line3 line3_tail = IsIdenticalView line3_tail line3 /\
  IsIdenticalView line3 (QuickCopy line3_protected) = Ok true.
Proof.
  destruct (@IsIdenticalView_equivalence support) as (Hrefl & Hsym & Htrans).
  split; [apply Hrefl; reflexivity|]. split; [apply Hsym|].
  apply (Htrans line3 line3_protected); reflexivity.
Defined.

Lemma SharesData_equivalence_witness :
  SharesData line3 line3 = Ok true /\
  SharesData line3 other_block = SharesData other_block line3 /\
  SharesData line3_head line3_tail = Ok true /\
  IsIdenticalView line3 (set_dataBlock_ 2000 line3_protected) = Ok true.
Proof.
  destruct (@SharesData_equivalence support) as (Hrefl & Hsym & Htrans & Hblock).
  split; [apply Hrefl; reflexivity|]. split; [apply Hsym|].
  split; [apply (Htrans line3_head line3); reflexivity|].
  apply Hblock. reflexivity.
Defined.

Lemma identical_views_do_not_overlap_witness :
  IsIdenticalView line3 line3_protected = Ok true /\
  IsOverlappingView line3 line3_protected = Ok false /\
  IsOverlappingView line3 line3 = Ok false /\
  IsOverlappingView (QuickCopy line3) line3 = Ok false.
Proof.
  split; [reflexivity|].
  apply (identical_views_do_not_overlap line3 line3_protected). reflexivity.
Defined.

Lemma IsOverlappingView_collection_order_witness :
  IsOverlappingView_array raw_protected [raw_protected; line3]
  = IsOverlappingView_array raw_protected [line3; raw_protected].
Proof.
  apply (proj1 (IsOverlappingView_collection_order raw_protected)).
  apply perm_swap.
Defined.

Lemma Strip_idempotent_witness :
  (IsForged (self (fst (Strip (world_of line3 1)))) = false /\
   Strip (fst (Strip (world_of line3 1))) = (fst (Strip (world_of line3 1)), Ok tt)) /\
  (Message "Image is protected" = Message "Image is protected" /\
   IsForged (self (world_of line3_protected 1)) = true /\
   IsProtected (self (world_of line3_protected 1)) = true).
Proof.
  split.
  - apply (proj1 (Strip_idempotent (world_of line3 1))). reflexivity.
  - apply (proj2 (Strip_idempotent (world_of line3_protected 1))). reflexivity.
Defined.

Lemma Strip_then_raw_mutator_witness :
  (Strip ;;; run_mutator (Call_SetSizes [2%N; 2%N])) (world_of line3_protected 1)
  = (world_of line3_protected 1, Throw (Message "Image is protected")) /\
  ((Strip ;;; run_mutator (Call_SetSizes [2%N; 2%N])) (world_of line3 1)
   = run_mutator (Call_SetSizes [2%N; 2%N]) (fst (Strip (world_of line3 1))) /\
   IsForged (self (fst (Strip (world_of line3 1)))) = false).
Proof.
  split.
  - apply (proj1 (proj2 (Strip_then_raw_mutator (Call_SetSizes [2%N; 2%N])
                           (world_of line3_protected 1)))); reflexivity.
  - apply (proj2 (proj2 (Strip_then_raw_mutator (Call_SetSizes [2%N; 2%N])
                           (world_of line3 1)))). reflexivity.
Defined.

Lemma copy_assign_spec_witness :
  (IsIdenticalView (this_image (fst (copy_assign line3 1000 tail_of_two))) line3 = Ok true /\
   SharesData (this_image (fst (copy_assign line3 1000 tail_of_two))) line3 = Ok true) /\
  owners (fst (copy_assign line3 1000 tail_of_two)) = owners tail_of_two /\
  owners (fst (copy_assign line3 1001 apart_at_line3)) !! 1001 = Some 2%nat /\
  owners (fst (copy_assign line3 1001 apart_at_line3)) !! 1000 = None.
Proof.
  destruct (copy_assign_spec line3 1000 tail_of_two) as (_ & _ & _ & Hview & _ & Hsame & _).
  destruct (copy_assign_spec line3 1001 apart_at_line3)
    as (_ & _ & _ & _ & _ & _ & Hgain & _ & Hlast).
  split; [apply Hview; reflexivity|].
  split; [apply (Hsame 1%nat); reflexivity|].
  split; [apply (Hgain 0%nat); [discriminate.. | reflexivity]|].
  apply Hlast; [discriminate.. | reflexivity].
Defined.

Lemma copy_assign_then_Strip_witness :
  snd (Strip_owned (fst (copy_assign line3 1000 beside_line3))) = Ok tt /\
  IsForged (this_image (fst (Strip_owned (fst (copy_assign line3 1000 beside_line3)))))
  = false /\
  owners (fst (Strip_owned (fst (copy_assign line3 1000 beside_line3))))
  = owners beside_line3 /\
  this_control (fst (Strip_owned (fst (copy_assign line3 1000 beside_line3)))) = no_control.
Proof.
  apply (copy_assign_then_Strip line3 1000 beside_line3 0); reflexivity.
Defined.

Lemma QuickCopy_strips_witness :
  snd (Strip (@mkWorld support ∅ (QuickCopy line3_protected))) = Ok tt /\
  snd (Strip_owned (fst (copy_assign line3_protected 1000 beside_line3)))
  = Throw (Message "Image is protected").
Proof.
  split.
  - apply (proj1 (QuickCopy_strips line3_protected ∅ 1000 beside_line3)).
  - apply (proj2 (proj2 (QuickCopy_strips line3_protected ∅ 1000 beside_line3)));
      reflexivity.
Defined.

Lemma copy_assign_shares_witness :
  (ShareCount_owned (fst (copy_assign line3 1000 beside_line3)) = Ok 2%N /\
   IsShared_owned (fst (copy_assign line3 1000 beside_line3)) = Ok true) /\
  (ShareCount_owned (fst (copy_assign line3 1001 apart_at_line3)) = Ok 2%N /\
   IsShared_owned (fst (copy_assign line3 1001 apart_at_line3)) = Ok true).
Proof.
  split.
  - apply (copy_assign_shares line3 1000 beside_line3 0); try reflexivity; discriminate.
  - apply (copy_assign_shares line3 1001 apart_at_line3 0); try reflexivity; discriminate.
Defined.

Lemma flags_checked_before_any_call_witness :
  ending (Tophat "dynamic" "black") = Returned tt /\
  Tophat "Texture" "white" = ([], Thrown INVALID_FLAG) /\
  MorphologicalSmoothing "open_close" = ([], Thrown INVALID_FLAG).
Proof.
  split; [|split].
  - apply (proj1 (flags_checked_before_any_call "dynamic" "black" "average")).
    unfold valid_edgeType, valid_polarity. auto.
  - apply (proj1 (proj2 (flags_checked_before_any_call "Texture" "white" "average"))).
    unfold valid_edgeType. intuition discriminate.
  - apply (proj1 (proj2 (proj2 (proj2 (proj2 (proj2
             (flags_checked_before_any_call "both" "white" "open_close"))))))).
    unfold valid_mode. intuition discriminate.
Defined.

Lemma Lee_checks_sign_last_witness :
  (ending (Lee "object" "Signed") = Thrown INVALID_FLAG /\
   exists c, c ∈ calls (Lee "object" "Signed") /\ v_out ∈ writes c) /\
  Lee "none" "signed" = ([], Thrown INVALID_FLAG).
Proof.
  split.
  - apply (proj1 (Lee_checks_sign_last "object" "Signed")).
    + unfold valid_edgeType. auto.
    + unfold valid_sign. intuition discriminate.
  - apply (proj2 (proj2 (Lee_checks_sign_last "none" "signed"))).
    unfold valid_edgeType. intuition discriminate.
Defined.

Lemma MultiScale_returns_witness :
  MultiScaleMorphologicalGradient 10 1 2 = Some ([], Thrown (What "lowerSize > upperSize")) /\
  exists cs,
    MultiScaleMorphologicalGradient 10 3 1 = Some (cs, Returned tt) /\
    length cs = (5 * N.to_nat (3 - 1 + 1))%nat.
Proof.
  split.
  - apply (proj1 (MultiScale_returns 10 1 2)). reflexivity.
  - apply (proj2 (MultiScale_returns 10 3 1)); vm_compute; try lia; try reflexivity;
      discriminate.
Defined.

Lemma MultiScale_never_returns_witness :
  MultiScaleMorphologicalGradient 100 18446744073709551615 18446744073709551614 = None.
Proof.
  apply (MultiScale_never_returns 100); [reflexivity | discriminate].
Defined.

Lemma MultiScale_reads_in_after_out_witness :
  exists cs,
    MultiScaleMorphologicalGradient 10 2 1 = Some (cs, Returned tt) /\
    (reads_in_after_out cs <-> (1 < 2)%N).
Proof.
  apply (MultiScale_reads_in_after_out 10 2 1); vm_compute; try lia; try reflexivity;
    discriminate.
Defined.

Lemma MultiScale_lowerSize_zero_witness :
  exists cs,
    MultiScaleMorphologicalGradient 10 1 0 = Some (cs, Returned tt) /\
    cs !! 3%nat = Some (Call_Erosion v_eros v_out (SE_of_size 18446744073709551615)).
Proof.
  apply (MultiScale_lowerSize_zero 10 1); vm_compute; try lia; reflexivity.
Defined.

Lemma ChainCodeToPolygon_returns_witness :
  exists polygon,
    @dip__ChainCodeToPolygon exact square8 = Some (Ok polygon) /\
    (codes square8 = [] -> length polygon = 4%nat) /\
    (codes square8 <> [] ->
     (length (codes square8) <= length polygon
      <= (if is8connected square8 then 4 else 3) * length (codes square8))%nat).
Proof.
  apply (@ChainCodeToPolygon_returns exact square8).
  - repeat constructor; discriminate.
  - discriminate.
Defined.

Lemma ChainCodeToPolygon_small_witness :
  @dip__ChainCodeToPolygon exact lone_code
  = Some (Throw (Message "Received a weird chain code as input (N==2).")) /\
  @dip__ChainCodeToPolygon exact pixel
  = Some (Ok [(5, 13 # 2); (9 # 2, 7); (5, 15 # 2); (11 # 2, 7)]%Q).
Proof.
  split.
  - apply (proj1 (@ChainCodeToPolygon_small exact lone_code)). reflexivity.
  - exact (proj2 (@ChainCodeToPolygon_small exact pixel) eq_refl).
Defined.

Lemma ChainCodeToPolygon_4connected_count_witness :
  exists polygon,
    @dip__ChainCodeToPolygon exact walk4 = Some (Ok polygon) /\
    length polygon = list_sum (map vertices_of_code4 (codes walk4)).
Proof.
  apply (@ChainCodeToPolygon_4connected_count exact walk4).
  - reflexivity.
  - repeat constructor; discriminate.
  - simpl. lia.
Defined.

End Witnesses.
